(** * MG SAIC integration for Home Assistant: message polling and entry setup

    A shallow embedding of
      - [custom_components/mg_saic/message_handler.py] (class
        [SAICMGMessageHandler]) and
      - [custom_components/mg_saic/__init__.py] ([async_setup_entry],
        [update_listener], [async_unload_entry] and the timer callback),
    followed by the properties of the polling logic and of the entry setup.

    Conventions of the embedding.
      - A Python coroutine is a computation in the monad [M]: it threads the
        mutable state it works on, may raise an [Exception], and, because the
        pagination loop is a [while True], may exhaust its fuel ([None]).
      - Every call that leaves the integration (SDK client, coordinator,
        Home Assistant helpers) is answered by an oracle and appended to the
        list of calls of the run, in program order.
      - Logging has no effect on state or control flow and is left out. *)

From stdpp Require Import base option list strings gmap.
From Stdlib Require Import NArith ZArith Lia.

Set Default Proof Using "Type".
Open Scope N_scope.

(** ** Python values shared by both files *)

(** [Exception] and its subclasses as far as the code can observe them: every
    handler in the two files is [except Exception], so only the fact that
    something was raised matters. *)
Inductive Exception : Type :=
  | ApiException (msg : string)
  | TypeError (msg : string)
  | KeyError (key : string).

Inductive Result (A : Type) : Type :=
  | Ok (a : A)
  | Raise (e : Exception).
Arguments Ok {A} a.
Arguments Raise {A} e.

(** [datetime] values as produced by [strptime(.., '%Y-%m-%d %H:%M:%S')]:
    whole seconds counted from [datetime.min], which is therefore [0] and
    below every other value. *)
Abbreviation datetime := N (only parsing).
Definition datetime_min : datetime := 0.

(** [messageId: Union[str, int] = None]. A [str] never equals an [int]. *)
Inductive MessageId : Type :=
  | StrId (s : string)
  | IntId (n : Z).

#[global] Instance MessageId_eq_dec : EqDecision MessageId.
Proof. solve_decision. Defined.

(** The fields and properties of the SDK's [MessageEntity] that the handler
    reads. [message_time] and [read_status] are the entity's properties
    (the parsed [messageTime], and one of "unknown", "unread", "read"). *)
Record MessageEntity : Type := {
  messageId : option MessageId;
  message_time : datetime;
  messageType : option string;
  read_status : string;
  title : option string;
  vin : option string;
}.

#[global] Instance MessageEntity_eq_dec : EqDecision MessageEntity.
Proof. solve_decision. Defined.

(** [MessageResp.messages: List[MessageEntity] = None]. *)
Record MessageResp : Type := {
  messages : option (list MessageEntity);
}.

(** A [SAICMGDataUpdateCoordinator], identified by the config entry it was
    built for. *)
Record Coordinator : Type := {
  coordinator_entry : string;
}.

#[global] Instance Coordinator_eq_dec : EqDecision Coordinator.
Proof. solve_decision. Defined.

(** A [SAICMGAPIClient] object, identified by its constructor arguments. *)
Record ClientRef : Type := {
  client_username : string;
  client_password : string;
  client_vin : option string;
  client_username_is_email : bool;
  client_region : option string;
  client_country_code : option string;
}.

(** The callable returned by [async_track_time_interval]; it names the client
    of the handler whose check it cancels. *)
Record CancelCallback : Type := {
  cancels_handler_of : ClientRef;
}.

(** [hass.data[DOMAIN]], a dict with four families of keys:
    [entry.entry_id], [f"{entry.entry_id}_coordinator"], and the two literal
    keys "coordinators_by_vin" and "message_handler". Entry ids are generated
    by Home Assistant and never spell one of the other keys, so the dict is
    kept as one map per family; an absent literal key is [None]. *)
Record DomainData : Type := {
  entry_clients : gmap string ClientRef;
  entry_coordinators : gmap string Coordinator;
  coordinators_by_vin : option (gmap string Coordinator);
  message_handler : option CancelCallback;
}.

(** ** The monad of coroutines: state, exceptions, fuel *)

Definition M (St A : Type) : Type := St → option (St * Result A).

#[global] Instance M_ret {St} : MRet (M St) := λ A a s, Some (s, Ok a).

#[global] Instance M_bind {St} : MBind (M St) := λ A B f m s,
  match m s with
  | None => None
  | Some (s', Ok a) => f a s'
  | Some (s', Raise e) => Some (s', Raise e)
  end.

Definition raise {St A} (e : Exception) : M St A := λ s, Some (s, Raise e).

(** The loop ran out of fuel. *)
Definition out_of_fuel {St A} : M St A := λ _, None.

(** [try: body / except Exception as e: handler e]. *)
Definition try_except {St A} (body : M St A) (handler : Exception → M St A)
    : M St A := λ s,
  match body s with
  | Some (s', Raise e) => handler e s'
  | r => r
  end.

Definition get_state {St} : M St St := λ s, Some (s, Ok s).

Definition modify_state {St} (f : St → St) : M St unit :=
  λ s, Some (f s, Ok ()).

(** [for x in l: body x]. *)
Fixpoint for_each {St A} (l : list A) (body : A → M St unit) : M St unit :=
  match l with
  | [] => mret ()
  | x :: l' => body x;; for_each l' body
  end.

(** ** api.py, as far as the message handler uses it *)

Module api.

(** The three methods of [SAICMGAPIClient] that the handler awaits, as
    oracles. Within one run of [check_for_new_messages] every page number is
    requested at most once, and the outcome of a mark-read or delete call is
    swallowed by the caller, so one answer per argument describes every
    behaviour of the API during that run. *)
Record SAICMGAPIClient : Type := {
  get_alarm_list : N → N → Result (option MessageResp);
  read_message : MessageId → Result unit;
  delete_message : MessageId → Result unit;
}.

End api.

(** ** message_handler.py *)

Module message_handler.

(** What the handler reaches through [self.hass] and [self.client]:
    [hass.data[DOMAIN]], which [async_setup_entry] creates before it builds
    any handler and which nothing removes; the client; and the outcome of
    [coordinator.async_request_refresh()]. *)
Record Env : Type := {
  client : api.SAICMGAPIClient;
  hass_data_domain : DomainData;
  async_request_refresh : Coordinator → Result unit;
}.

(** The handler's own attributes ([__init__], lines 21-23). *)
Record SAICMGMessageHandler : Type := {
  last_message_ts : datetime;
  last_message_id : option MessageId;
  first_call : bool;
}.

Definition __init__ : SAICMGMessageHandler :=
  {| last_message_ts := datetime_min;
     last_message_id := None;
     first_call := true |}.

(** Calls that leave the handler. *)
Inductive Call : Type :=
  | get_alarm_list_call (page_num page_size : N)
  | read_message_call (message_id : MessageId)
  | delete_message_call (message_id : MessageId)
  | async_request_refresh_call (c : Coordinator).

#[global] Instance Call_eq_dec : EqDecision Call.
Proof. solve_decision. Defined.

(** State of one run: the handler object and the calls made so far. *)
Record Run : Type := {
  self : SAICMGMessageHandler;
  calls : list Call;
}.

(** Await an outside call: record it and continue with the oracle's answer. *)
Definition await {A} (c : Call) (answer : Result A) : M Run A := λ s,
  Some ({| self := self s; calls := calls s ++ [c] |}, answer).

Definition set_self (f : SAICMGMessageHandler → SAICMGMessageHandler)
    : M Run unit :=
  modify_state (λ s, {| self := f (self s); calls := calls s |}).

(** [max(l, key=..)] and [min(l, key=..)] on a non-empty list: the first
    element that reaches the extreme key wins. *)
Definition py_max_by {A} (key : A → N) (x : A) (l : list A) : A :=
  foldl (λ best y, if key best <? key y then y else best) x l.

Definition py_min_by {A} (key : A → N) (x : A) (l : list A) : A :=
  foldl (λ best y, if key y <? key best then y else best) x l.

(** Lines 142-148. *)
Definition __get_latest_message (vehicle_start_messages : list MessageEntity)
    : option MessageEntity :=
  match vehicle_start_messages with
  | [] => None
  | m :: l => Some (py_max_by message_time m l)
  end.

(** Lines 150-156. *)
Definition __get_oldest_message (vehicle_start_messages : list MessageEntity)
    : option MessageEntity :=
  match vehicle_start_messages with
  | [] => None
  | m :: l => Some (py_min_by message_time m l)
  end.

(** [message_list is not None and message_list.messages and
    len(message_list.messages) > 0] (lines 92-96): the messages to extend
    with, or [None] when the test is false. *)
Definition nonempty_messages (message_list : option MessageResp)
    : option (list MessageEntity) :=
  match message_list with
  | Some {| messages := Some (m :: l) |} => Some (m :: l)
  | _ => None
  end.

(** Outcome of one pass through the body of the [while True]. *)
Inductive LoopStep : Type :=
  | Return (value : option (list MessageEntity))
  | Continue (all_messages : list MessageEntity).

Section handler.
Context (env : Env).

(** Lines 114-128. *)
Definition read_message (message : MessageEntity) : M Run unit :=
  try_except
    (match messageId message with
     | Some message_id =>
         await (read_message_call message_id)
               (api.read_message (client env) message_id)
     | None => mret ()
     end)
    (λ _, mret ()).

(** Lines 130-140. *)
Definition __delete_message (message : MessageEntity) : M Run unit :=
  try_except
    (match messageId message with
     | Some message_id =>
         await (delete_message_call message_id)
               (api.delete_message (client env) message_id)
     | None => mret ()
     end)
    (λ _, mret ()).

(** Lines 89-107, the [try] block of one iteration. *)
Definition loop_try (idx : N) (all_messages : list MessageEntity)
    : M Run LoopStep :=
  message_list ← await (get_alarm_list_call idx 1)
                       (api.get_alarm_list (client env) idx 1);
  match nonempty_messages message_list with
  | Some page =>
      let all_messages := all_messages ++ page in
      s ← get_state;
      match __get_oldest_message all_messages with
      | Some oldest_message =>
          if message_time oldest_message <? last_message_ts (self s)
          then mret (Return (Some all_messages))
          else mret (Continue all_messages)
      | None => mret (Continue all_messages)
      end
  | None => mret (Return (Some all_messages))
  end.

(** Lines 87-112: [while True] with its [try / except / finally]. *)
Fixpoint while_true (fuel : nat) (idx : N)
    (all_messages : list MessageEntity)
    : M Run (option (list MessageEntity)) :=
  match fuel with
  | O => out_of_fuel
  | S fuel =>
      step ← try_except (loop_try idx all_messages)
                        (λ _, mret (Return None));
      match step with
      | Return value => mret value
      | Continue all_messages => while_true fuel (idx + 1) all_messages
      end
  end.

(** Lines 83-112. *)
Definition get_all_alarm_messages (fuel : nat)
    : M Run (option (list MessageEntity)) :=
  while_true fuel 1 [].

(** Iterating over [None] raises [TypeError]. *)
Definition iter {A} (l : option (list A)) : M Run (list A) :=
  match l with
  | Some l => mret l
  | None => raise (TypeError "'NoneType' object is not iterable")
  end.

(** Lines 50-67: look the coordinator up and ask it to refresh. *)
Definition trigger_refresh (latest_message : MessageEntity) : M Run unit :=
  let by_vin := default ∅ (coordinators_by_vin (hass_data_domain env)) in
  match vin latest_message ≫= (by_vin !!.) with
  | Some coordinator =>
      try_except
        (await (async_request_refresh_call coordinator)
               (async_request_refresh env coordinator))
        (λ _, mret ())
  | None => mret ()
  end.

(** Lines 28-78, the body of the outer [try]. *)
Definition check_try (fuel : nat) : M Run unit :=
  all_messages ← get_all_alarm_messages fuel;
  all_messages ← iter all_messages;
  let new_messages :=
    filter (λ m, read_status m ≠ "read") all_messages in
  for_each new_messages read_message;;
  s ← get_state;
  match __get_latest_message all_messages with
  | Some latest_message =>
      if decide (messageId latest_message ≠ last_message_id (self s)
                 ∧ last_message_ts (self s) < message_time latest_message)
      then
        set_self (λ h, {| last_message_ts := message_time latest_message;
                          last_message_id := messageId latest_message;
                          first_call := first_call h |});;
        if first_call (self s) then mret ()
        else trigger_refresh latest_message
      else mret ()
  | None => mret ()
  end;;
  s ← get_state;
  let vehicle_start_messages :=
    filter (λ m, messageType m = Some "323"
                 ∧ messageId m ≠ last_message_id (self s)) all_messages in
  for_each vehicle_start_messages __delete_message;;
  set_self (λ h, {| last_message_ts := last_message_ts h;
                    last_message_id := last_message_id h;
                    first_call := false |}).

(** Lines 25-81. *)
Definition check_for_new_messages (fuel : nat) : M Run unit :=
  try_except (check_try fuel) (λ _, mret ()).

End handler.

End message_handler.

(** ** __init__.py *)

Module init.

(** [entry.entry_id] and [entry.data]. *)
Record ConfigEntry : Type := {
  entry_id : string;
  data : gmap string string;
}.

(** An element of the list [client.get_vehicle_info()] returns. *)
Record VinInfo : Type := {
  vehicle_vin : option string;
}.

(** The answers of everything one [async_setup_entry] call awaits or calls
    outside the integration, in the order of the code. *)
Record Env : Type := {
  login : Result unit;
  get_vehicle_info : Result (list VinInfo);
  coordinator_async_setup : Result unit;
  add_update_listener : Result unit;
  async_forward_entry_setups : Result unit;
  async_setup_services : Result unit;
  async_track_time_interval : Result unit;
}.

(** Outside calls and object constructions of the setup. *)
Inductive Call : Type :=
  | login_call (client : ClientRef)
  | get_vehicle_info_call (client : ClientRef)
  | coordinator_async_setup_call (coordinator : Coordinator)
  | add_update_listener_call (entry : string)
  | async_forward_entry_setups_call (entry : string)
  | async_setup_services_call (client : ClientRef) (coordinator : Coordinator)
  | SAICMGMessageHandler_new (client : ClientRef)
  | async_track_time_interval_call (client : ClientRef).

(** The Home Assistant instance: [hass.data.get(DOMAIN)] and the calls made
    on it so far. *)
Record HomeAssistant : Type := {
  data_domain : option DomainData;
  calls : list Call;
}.

(** An outside call or a construction: record it and continue with its
    outcome. *)
Definition call {A} (c : Call) (answer : Result A) : M HomeAssistant A :=
  λ hass,
  Some ({| data_domain := data_domain hass; calls := calls hass ++ [c] |},
        answer).

(** [hass.data.setdefault(DOMAIN, {})]. *)
Definition setdefault_domain : M HomeAssistant unit :=
  modify_state (λ hass,
    {| data_domain :=
         Some (default {| entry_clients := ∅; entry_coordinators := ∅;
                          coordinators_by_vin := None;
                          message_handler := None |} (data_domain hass));
       calls := calls hass |}).

(** [hass.data[DOMAIN]]: [KeyError] when the key is absent. *)
Definition get_domain : M HomeAssistant DomainData := λ hass,
  match data_domain hass with
  | Some d => Some (hass, Ok d)
  | None => Some (hass, Raise (KeyError "mg_saic"))
  end.

(** An in-place update of the dict [hass.data[DOMAIN]]. *)
Definition update_domain (f : DomainData → DomainData)
    : M HomeAssistant unit :=
  d ← get_domain;
  modify_state (λ hass,
    {| data_domain := Some (f d); calls := calls hass |}).

(** [d[key]]: [KeyError] when the key is absent. *)
Definition getitem (d : gmap string string) (key : string)
    : M HomeAssistant string :=
  match d !! key with
  | Some v => mret v
  | None => raise (KeyError key)
  end.

(** Lines 33-85, the body of the [try]. [if not vin] holds for [None] and
    for the empty string. Building the coordinator and awaiting its
    [async_setup] are answered together. *)
Definition setup_try (env : Env) (entry : ConfigEntry) (client : ClientRef)
    (vin : option string) : M HomeAssistant bool :=
  call (login_call client) (login env);;
  match vin with
  | None | Some EmptyString => mret false
  | Some vin =>
  vehicles ← call (get_vehicle_info_call client) (get_vehicle_info env);
  if negb (bool_decide (Exists (λ v, vehicle_vin v = Some vin) vehicles))
  then mret false else
  update_domain (λ d,
    {| entry_clients := <[entry_id entry := client]> (entry_clients d);
       entry_coordinators := entry_coordinators d;
       coordinators_by_vin := coordinators_by_vin d;
       message_handler := message_handler d |});;
  let coordinator := {| coordinator_entry := entry_id entry |} in
  call (coordinator_async_setup_call coordinator)
       (coordinator_async_setup env);;
  update_domain (λ d,
    {| entry_clients := entry_clients d;
       entry_coordinators :=
         <[entry_id entry +:+ "_coordinator" := coordinator]>
           (entry_coordinators d);
       coordinators_by_vin := coordinators_by_vin d;
       message_handler := message_handler d |});;
  update_domain (λ d,
    {| entry_clients := entry_clients d;
       entry_coordinators := entry_coordinators d;
       coordinators_by_vin :=
         Some (<[vin := coordinator]> (default ∅ (coordinators_by_vin d)));
       message_handler := message_handler d |});;
  call (add_update_listener_call (entry_id entry))
       (add_update_listener env);;
  call (async_forward_entry_setups_call (entry_id entry))
       (async_forward_entry_setups env);;
  call (async_setup_services_call client coordinator)
       (async_setup_services env);;
  d ← get_domain;
  match message_handler d with
  | None =>
      call (SAICMGMessageHandler_new client) (Ok ());;
      call (async_track_time_interval_call client)
           (async_track_time_interval env);;
      let message_handler_cancel := {| cancels_handler_of := client |} in
      update_domain (λ d,
        {| entry_clients := entry_clients d;
           entry_coordinators := entry_coordinators d;
           coordinators_by_vin := coordinators_by_vin d;
           message_handler :=
             Some (default message_handler_cancel (message_handler d)) |})
  | Some _ => mret ()
  end;;
  mret true
  end.

(** Lines 14-88. *)
Definition async_setup_entry (env : Env) (entry : ConfigEntry)
    : M HomeAssistant bool :=
  setdefault_domain;;
  username ← getitem (data entry) "username";
  password ← getitem (data entry) "password";
  let vin := data entry !! "vin" in
  let region := data entry !! "region" in
  let username_is_email := bool_decide (data entry !! "country_code" = None) in
  let client :=
    {| client_username := username; client_password := password;
       client_vin := vin; client_username_is_email := username_is_email;
       client_region := region;
       client_country_code := data entry !! "country_code" |} in
  try_except (setup_try env entry client vin) (λ _, mret false).

(** Home Assistant sets the entries up one after the other; an exception
    that leaves a call is caught by the caller and the next call proceeds. *)
Fixpoint setup_entries (l : list (Env * ConfigEntry)) (hass : HomeAssistant)
    : option (HomeAssistant * list (Result bool)) :=
  match l with
  | [] => Some (hass, [])
  | (env, entry) :: l =>
      match async_setup_entry env entry hass with
      | None => None
      | Some (hass, r) =>
          match setup_entries l hass with
          | None => None
          | Some (hass, rs) => Some (hass, r :: rs)
          end
      end
  end.

(** How many handlers and how many periodic callbacks a list of calls
    created. *)
Definition is_handler_new (c : Call) : bool :=
  match c with SAICMGMessageHandler_new _ => true | _ => false end.

Definition is_track_time_interval (c : Call) : bool :=
  match c with async_track_time_interval_call _ => true | _ => false end.

Definition handlers_created (l : list Call) : nat :=
  length (filter (λ c, is_handler_new c) l).

Definition callbacks_registered (l : list Call) : nat :=
  length (filter (λ c, is_track_time_interval c) l).

(** [hass.data.get(DOMAIN, {}).get("message_handler")]. *)
Definition recorded (hass : HomeAssistant) : option CancelCallback :=
  data_domain hass ≫= message_handler.

End init.

(** ** __init__.py: the options listener and the unload *)

Module lifecycle.

(** Calls made on a Home Assistant instance over its life: those of a setup,
    and those of [update_listener] and [async_unload_entry]. The options of
    an entry are handed on untouched; the call names the entry. *)
Inductive Call : Type :=
  | setup (c : init.Call)
  | async_update_options_call (coordinator : Coordinator) (entry : string)
  | async_unload_platforms_call (entry : string)
  | async_unload_services_call.

Record HomeAssistant : Type := {
  data_domain : option DomainData;
  calls : list Call;
}.

Definition call {A} (c : Call) (answer : Result A) : M HomeAssistant A :=
  λ hass,
  Some ({| data_domain := data_domain hass; calls := calls hass ++ [c] |},
        answer).

(** [hass.data[DOMAIN]]: [KeyError] when the key is absent. *)
Definition get_domain : M HomeAssistant DomainData := λ hass,
  match data_domain hass with
  | Some d => Some (hass, Ok d)
  | None => Some (hass, Raise (KeyError "mg_saic"))
  end.

Definition set_domain (d : DomainData) : M HomeAssistant unit :=
  modify_state (λ hass, {| data_domain := Some d; calls := calls hass |}).

(** [d[key]]: [KeyError] when the key is absent. *)
Definition getitem {V} (d : gmap string V) (key : string)
    : M HomeAssistant V :=
  match d !! key with
  | Some v => mret v
  | None => raise (KeyError key)
  end.

(** Lines 91-94. Nothing catches what the lookups or the coordinator
    raise. *)
Definition update_listener (async_update_options : Result unit)
    (entry : init.ConfigEntry) : M HomeAssistant unit :=
  d ← get_domain;
  coordinator ← getitem (entry_coordinators d)
                        (init.entry_id entry +:+ "_coordinator");
  call (async_update_options_call coordinator (init.entry_id entry))
       async_update_options.

(** [not hass.data[DOMAIN]]: the dict holds no key at all. *)
Definition domain_empty (d : DomainData) : Prop :=
  entry_clients d = ∅ ∧ entry_coordinators d = ∅
  ∧ coordinators_by_vin d = None ∧ message_handler d = None.

#[global] Instance domain_empty_dec d : Decision (domain_empty d).
Proof. unfold domain_empty. apply _. Defined.

(** Lines 97-107. [dict.pop(key)] without a default raises [KeyError] when
    the key is absent. *)
Definition async_unload_entry (async_unload_platforms : Result bool)
    (async_unload_services : Result unit) (entry : init.ConfigEntry)
    : M HomeAssistant bool :=
  unload_ok ← call (async_unload_platforms_call (init.entry_id entry))
                   async_unload_platforms;
  (if unload_ok : bool then
     d ← get_domain;
     getitem (entry_clients d) (init.entry_id entry);;
     set_domain
       {| entry_clients := delete (init.entry_id entry) (entry_clients d);
          entry_coordinators := entry_coordinators d;
          coordinators_by_vin := coordinators_by_vin d;
          message_handler := message_handler d |};;
     d ← get_domain;
     if decide (domain_empty d)
     then call async_unload_services_call async_unload_services
     else mret ()
   else mret ());;
  mret unload_ok.

(** [async_setup_entry] (lines 14-88) on this instance: its calls are
    recorded as [setup] calls. *)
Definition async_setup_entry (env : init.Env) (entry : init.ConfigEntry)
    : M HomeAssistant bool := λ hass,
  match init.async_setup_entry env entry
          {| init.data_domain := data_domain hass; init.calls := [] |} with
  | Some (hass', r) =>
      Some ({| data_domain := init.data_domain hass';
               calls := calls hass ++ (setup <$> init.calls hass') |}, r)
  | None => None
  end.

(** What Home Assistant asks of the integration. *)
Inductive Op : Type :=
  | Setup (env : init.Env) (entry : init.ConfigEntry)
  | UpdateOptions (async_update_options : Result unit)
                  (entry : init.ConfigEntry)
  | Unload (async_unload_platforms : Result bool)
           (async_unload_services : Result unit) (entry : init.ConfigEntry).

(** One request; Home Assistant catches what it raises. [Some true] is a
    setup or an unload that returned True. *)
Definition run_op (op : Op) (hass : HomeAssistant)
    : option (HomeAssistant * Result bool) :=
  match op with
  | Setup env entry => async_setup_entry env entry hass
  | UpdateOptions o entry =>
      (update_listener o entry;; mret true) hass
  | Unload p u entry => async_unload_entry p u entry hass
  end.

(** Requests served one after the other. *)
Fixpoint run_ops (ops : list Op) (hass : HomeAssistant)
    : option (HomeAssistant * list (Result bool)) :=
  match ops with
  | [] => Some (hass, [])
  | op :: ops =>
      match run_op op hass with
      | None => None
      | Some (hass, r) =>
          match run_ops ops hass with
          | None => None
          | Some (hass, rs) => Some (hass, r :: rs)
          end
      end
  end.

Definition is_handler_new (c : Call) : bool :=
  match c with setup c => init.is_handler_new c | _ => false end.

Definition is_unload_services (c : Call) : bool :=
  match c with async_unload_services_call => true | _ => false end.

Definition handlers_created (l : list Call) : nat :=
  length (filter (λ c, is_handler_new c) l).

Definition services_unloaded (l : list Call) : nat :=
  length (filter (λ c, is_unload_services c) l).

Definition recorded (hass : HomeAssistant) : option CancelCallback :=
  data_domain hass ≫= message_handler.

End lifecycle.

(** ** Vocabulary of the statements *)

Import message_handler.

(** The run state at the start of an invocation on handler [h]. *)
Definition start (h : SAICMGMessageHandler) : Run :=
  {| self := h; calls := [] |}.

(** Growing the call list of a run. *)
Definition with_calls (s : Run) (l : list Call) : Run :=
  {| self := self s; calls := calls s ++ l |}.

(** What page [idx] contributes to [all_messages]: nothing when the call
    raises or the page fails the test of lines 92-96. *)
Definition page_messages (c : api.SAICMGAPIClient) (idx : N)
    : list MessageEntity :=
  match api.get_alarm_list c idx 1 with
  | Ok message_list => default [] (nonempty_messages message_list)
  | Raise _ => []
  end.

Definition page_raises (c : api.SAICMGAPIClient) (idx : N) : bool :=
  match api.get_alarm_list c idx 1 with
  | Ok _ => false
  | Raise _ => true
  end.

(** The messages of pages [1 .. n], in fetch order. *)
Definition accumulated (c : api.SAICMGAPIClient) (n : nat)
    : list MessageEntity :=
  flat_map (λ i, page_messages c (N.of_nat i)) (seq 1 n).

(** Page [n] ends the pagination: it adds nothing, or the messages up to it
    include one strictly older than the watermark [ts]. *)
Definition stops_at (c : api.SAICMGAPIClient) (ts : datetime) (n : nat)
    : Prop :=
  page_messages c (N.of_nat n) = []
  ∨ Exists (λ m, message_time m < ts) (accumulated c n).

#[global] Instance stops_at_dec c ts n : Decision (stops_at c ts n).
Proof. unfold stops_at. apply _. Defined.

(** The value returned when the pagination ends at page [n]. *)
Definition returned_at (c : api.SAICMGAPIClient) (n : nat)
    : option (list MessageEntity) :=
  if page_raises c (N.of_nat n) then None else Some (accumulated c n).

(** The fetch calls for pages [1 .. n]. *)
Definition fetch_calls (n : nat) : list Call :=
  map (λ i, get_alarm_list_call (N.of_nat i) 1) (seq 1 n).

(** The API calls that mark the unread messages of [l] as read. *)
Definition mark_read_calls (l : list MessageEntity) : list Call :=
  omap (λ m, read_message_call <$> messageId m)
       (filter (λ m, read_status m ≠ "read") l).

(** The vehicle start messages of [l] other than the one with id [last]. *)
Definition stale_vehicle_start (last : option MessageId)
    (l : list MessageEntity) : list MessageEntity :=
  filter (λ m, messageType m = Some "323" ∧ messageId m ≠ last) l.

Definition delete_calls (last : option MessageId) (l : list MessageEntity)
    : list Call :=
  omap (λ m, delete_message_call <$> messageId m) (stale_vehicle_start last l).

(** [m] is newer than the watermark of [h]: it was not seen by an earlier
    invocation. *)
Definition unseen (h : SAICMGMessageHandler) (m : MessageEntity) : Prop :=
  last_message_ts h < message_time m.

#[global] Instance unseen_dec h m : Decision (unseen h m).
Proof. unfold unseen. apply _. Defined.

(** [m] passes the test of lines 39-43 against the watermark of [h]. *)
Definition is_new (h : SAICMGMessageHandler) (m : MessageEntity) : Prop :=
  messageId m ≠ last_message_id h ∧ last_message_ts h < message_time m.

#[global] Instance is_new_dec h m : Decision (is_new h m).
Proof. unfold is_new. apply _. Defined.

(** The handler after lines 38-45 and line 78 on the fetched list [l]. *)
Definition checked (h : SAICMGMessageHandler) (l : list MessageEntity)
    : SAICMGMessageHandler :=
  match __get_latest_message l with
  | Some m =>
      if decide (is_new h m)
      then {| last_message_ts := message_time m;
              last_message_id := messageId m;
              first_call := false |}
      else {| last_message_ts := last_message_ts h;
              last_message_id := last_message_id h;
              first_call := false |}
  | None => {| last_message_ts := last_message_ts h;
               last_message_id := last_message_id h;
               first_call := false |}
  end.

(** The coordinator stored under the VIN of [m], if any. *)
Definition coordinator_of (env : Env) (m : MessageEntity)
    : option Coordinator :=
  vin m ≫= (default ∅ (coordinators_by_vin (hass_data_domain env)) !!.).

(** The refresh requests of lines 46-67 on the fetched list [l]. *)
Definition refresh_calls (env : Env) (h : SAICMGMessageHandler)
    (l : list MessageEntity) : list Call :=
  match __get_latest_message l with
  | Some m =>
      if decide (is_new h m)
      then if first_call h then []
           else match coordinator_of env m with
                | Some c => [async_request_refresh_call c]
                | None => []
                end
      else []
  | None => []
  end.

Definition is_fetch (c : Call) : bool :=
  match c with get_alarm_list_call _ _ => true | _ => false end.
Definition is_mark_read (c : Call) : bool :=
  match c with read_message_call _ => true | _ => false end.
Definition is_delete (c : Call) : bool :=
  match c with delete_message_call _ => true | _ => false end.
Definition is_refresh (c : Call) : bool :=
  match c with async_request_refresh_call _ => true | _ => false end.

(** A listing served newest first whose pages run out for good: messages of
    a later page are not newer than those of an earlier one, and no page
    follows an empty one. *)
Definition newest_first (c : api.SAICMGAPIClient) : Prop :=
  (∀ i j m m', (1 ≤ i < j)%nat →
     m ∈ page_messages c (N.of_nat i) → m' ∈ page_messages c (N.of_nat j) →
     message_time m' ≤ message_time m)
  ∧ (∀ i j, (1 ≤ i ≤ j)%nat →
     page_messages c (N.of_nat i) = [] → page_messages c (N.of_nat j) = []).

(** ** Sample data for the examples *)

Definition sample_message (i : Z) (t : datetime) (type status : string)
    : MessageEntity :=
  {| messageId := Some (IntId i); message_time := t;
     messageType := Some type; read_status := status;
     title := Some "Alarm"; vin := Some "VIN1" |}.

(** A client that serves [l] newest first, one message per page, and empty
    pages after it; marking and deleting succeed. *)
Definition listing (l : list MessageEntity) : api.SAICMGAPIClient :=
  {| api.get_alarm_list := λ page_num _,
       Ok (Some {| messages :=
                     Some (option_list (l !! N.to_nat (N.pred page_num))) |});
     api.read_message := λ _, Ok ();
     api.delete_message := λ _, Ok () |}.

(** A client that serves the message [m] on every page. *)
Definition endless (m : MessageEntity) : api.SAICMGAPIClient :=
  {| api.get_alarm_list := λ _ _, Ok (Some {| messages := Some [m] |});
     api.read_message := λ _, Ok ();
     api.delete_message := λ _, Ok () |}.

(** A client whose second page raises. *)
Definition failing (m : MessageEntity) : api.SAICMGAPIClient :=
  {| api.get_alarm_list := λ page_num _,
       if decide (page_num = 1) then Ok (Some {| messages := Some [m] |})
       else Raise (ApiException "timeout");
     api.read_message := λ _, Ok ();
     api.delete_message := λ _, Ok () |}.

(** One vehicle, set up under entry "entry1". *)
Definition sample_env (c : api.SAICMGAPIClient) : Env :=
  {| client := c;
     hass_data_domain :=
       {| entry_clients := ∅; entry_coordinators := ∅;
          coordinators_by_vin :=
            Some {[ "VIN1" := {| coordinator_entry := "entry1" |} ]};
          message_handler := None |};
     async_request_refresh := λ _, Ok () |}.

(** A handler that has seen message [i] at time [t]. *)
Definition seen (i : Z) (t : datetime) : SAICMGMessageHandler :=
  {| last_message_ts := t; last_message_id := Some (IntId i);
     first_call := false |}.

(** An entry for the vehicle [v] of the account "user". *)
Definition sample_entry (id v : string) : init.ConfigEntry :=
  {| init.entry_id := id;
     init.data := {[ "username" := "user"; "password" := "secret";
                     "vin" := v; "region" := "eu" ]} |}.

(** A setup in which every outside call succeeds, on an account with the
    vehicles VIN1 and VIN2. *)
Definition setup_succeeds : init.Env :=
  {| init.login := Ok ();
     init.get_vehicle_info :=
       Ok [ {| init.vehicle_vin := Some "VIN1" |};
            {| init.vehicle_vin := Some "VIN2" |} ];
     init.coordinator_async_setup := Ok ();
     init.add_update_listener := Ok ();
     init.async_forward_entry_setups := Ok ();
     init.async_setup_services := Ok ();
     init.async_track_time_interval := Ok () |}.

(** A Home Assistant instance that has not loaded the integration yet. *)
Definition fresh_hass : init.HomeAssistant :=
  {| init.data_domain := None; init.calls := [] |}.



(** The same listing and the same [hass.data], with every mark-read, delete
    and refresh call failing. *)
Definition with_failing_calls (env : Env) : Env :=
  {| client :=
       {| api.get_alarm_list := api.get_alarm_list (client env);
          api.read_message := λ _, Raise (ApiException "read failed");
          api.delete_message := λ _, Raise (ApiException "delete failed") |};
     hass_data_domain := hass_data_domain env;
     async_request_refresh := λ _, Raise (ApiException "refresh failed") |}.

(** A Home Assistant instance that has not loaded the integration yet. *)
Definition fresh_instance : lifecycle.HomeAssistant :=
  {| lifecycle.data_domain := None; lifecycle.calls := [] |}.

(** The dict [{}] that [hass.data.setdefault(DOMAIN, {})] stores. *)
Definition empty_domain : DomainData :=
  {| entry_clients := ∅; entry_coordinators := ∅;
     coordinators_by_vin := None; message_handler := None |}.

(** The client that lines 18-31 build for an entry with the given
    credentials. *)
Definition client_of (entry : init.ConfigEntry) (username password : string)
    : ClientRef :=
  {| client_username := username; client_password := password;
     client_vin := init.data entry !! "vin";
     client_username_is_email :=
       bool_decide (init.data entry !! "country_code" = None);
     client_region := init.data entry !! "region";
     client_country_code := init.data entry !! "country_code" |}.

(** The coordinator that line 50 builds for an entry. *)
Definition coordinator_of_entry (entry : init.ConfigEntry) : Coordinator :=
  {| coordinator_entry := init.entry_id entry |}.

(** Lines 34-45 let the setup go on with VIN [v]: the login succeeded, the
    entry names the non-empty VIN [v], and the vehicle list was fetched and
    holds it. *)
Definition vin_verified (env : init.Env) (vin : option string) (v : string)
    : Prop :=
  vin = Some v ∧ v ≠ "" ∧ init.login env = Ok ()
  ∧ ∃ vehicles, init.get_vehicle_info env = Ok vehicles
                ∧ Exists (λ x, init.vehicle_vin x = Some v) vehicles.

(** The coordinator stored under VIN [v], as the handler looks it up. *)
Definition by_vin (d : DomainData) (v : string) : option Coordinator :=
  default ∅ (coordinators_by_vin d) !! v.

(** A setup in which registering the services fails. *)
Definition setup_services_fail : init.Env :=
  {| init.login := Ok ();
     init.get_vehicle_info := Ok [ {| init.vehicle_vin := Some "VIN1" |} ];
     init.coordinator_async_setup := Ok ();
     init.add_update_listener := Ok ();
     init.async_forward_entry_setups := Ok ();
     init.async_setup_services := Raise (ApiException "services");
     init.async_track_time_interval := Ok () |}.

(** ** The monad *)

Section monad.
Context {St : Type}.

Lemma bind_run {A B} (m : M St A) (f : A → M St B) s :
  (m ≫= f) s =
  match m s with
  | None => None
  | Some (s', Ok a) => f a s'
  | Some (s', Raise e) => Some (s', Raise e)
  end.
Proof. reflexivity. Qed.

End monad.

(** ** Marking as read and deleting *)

Section handler_calls.
Context (env : Env).

Lemma with_calls_nil s : with_calls s [] = s.
Proof. destruct s. unfold with_calls. simpl. by rewrite app_nil_r. Qed.

Lemma with_calls_app s l1 l2 :
  with_calls (with_calls s l1) l2 = with_calls s (l1 ++ l2).
Proof. unfold with_calls. simpl. by rewrite app_assoc. Qed.

Lemma read_message_run m s :
  read_message env m s =
  Some (with_calls s (option_list (read_message_call <$> messageId m)), Ok ()).
Proof.
  unfold read_message, try_except.
  destruct (messageId m) as [i|]; simpl.
  - unfold await, with_calls.
    by destruct (api.read_message (client env) i) as [[]|].
  - by rewrite with_calls_nil.
Qed.

Lemma delete_message_run m s :
  __delete_message env m s =
  Some (with_calls s (option_list (delete_message_call <$> messageId m)),
        Ok ()).
Proof.
  unfold __delete_message, try_except.
  destruct (messageId m) as [i|]; simpl.
  - unfold await, with_calls.
    by destruct (api.delete_message (client env) i) as [[]|].
  - by rewrite with_calls_nil.
Qed.

(** A loop whose body only makes calls makes the calls of its elements in
    order. *)
Lemma for_each_calls {A} (body : A → M Run unit) (f : A → option Call) :
  (∀ x s, body x s = Some (with_calls s (option_list (f x)), Ok ())) →
  ∀ l s, for_each l body s = Some (with_calls s (omap f l), Ok ()).
Proof.
  intros Hbody l. induction l as [|x l IH]; intros s.
  - simpl. by rewrite with_calls_nil.
  - cbn [for_each]. rewrite bind_run, Hbody, IH, with_calls_app.
    do 3 f_equal. simpl. by destruct (f x).
Qed.

End handler_calls.

(** ** The pagination loop *)

Section pagination.
Context (env : Env).

Lemma py_min_by_spec {A} (key : A → N) (l : list A) (x : A) :
  py_min_by key x l ∈ x :: l ∧ ∀ y, y ∈ x :: l → key (py_min_by key x l) ≤ key y.
Proof.
  unfold py_min_by. revert x. induction l as [|z l IH]; intros x; simpl.
  - split; [left|]. intros y ->%list_elem_of_singleton. lia.
  - destruct (IH (if key z <? key x then z else x)) as [Hin Hle]. split.
    + apply elem_of_cons in Hin as [->|Hin].
      * destruct (key z <? key x); [right; left | left].
      * by do 2 right.
    + pose proof (Hle _ (list_elem_of_here _ _)) as Hhd.
      intros y Hy. apply elem_of_cons in Hy as [->|Hy].
      * destruct (N.ltb_spec (key z) (key x)); lia.
      * apply elem_of_cons in Hy as [->|Hy].
        -- destruct (N.ltb_spec (key z) (key x)); lia.
        -- apply Hle. by right.
Qed.

Lemma py_max_by_spec {A} (key : A → N) (l : list A) (x : A) :
  py_max_by key x l ∈ x :: l ∧ ∀ y, y ∈ x :: l → key y ≤ key (py_max_by key x l).
Proof.
  unfold py_max_by. revert x. induction l as [|z l IH]; intros x; simpl.
  - split; [left|]. intros y ->%list_elem_of_singleton. lia.
  - destruct (IH (if key x <? key z then z else x)) as [Hin Hle]. split.
    + apply elem_of_cons in Hin as [->|Hin].
      * destruct (key x <? key z); [right; left | left].
      * by do 2 right.
    + pose proof (Hle _ (list_elem_of_here _ _)) as Hhd.
      intros y Hy. apply elem_of_cons in Hy as [->|Hy].
      * destruct (N.ltb_spec (key x) (key z)); lia.
      * apply elem_of_cons in Hy as [->|Hy].
        -- destruct (N.ltb_spec (key x) (key z)); lia.
        -- apply Hle. by right.
Qed.

(** The test of lines 101-105 succeeds exactly when some accumulated message
    is strictly older than the watermark. *)
Lemma oldest_older_iff (l : list MessageEntity) (ts : N) :
  (∃ o, __get_oldest_message l = Some o ∧ message_time o < ts)
  ↔ Exists (λ m, message_time m < ts) l.
Proof.
  rewrite Exists_exists. split.
  - intros (o & Ho & Hlt). destruct l as [|x l]; [done|].
    injection Ho as <-. exists (py_min_by message_time x l).
    split; [apply py_min_by_spec | done].
  - intros (m & Hm & Hlt). destruct l as [|x l]; [by apply elem_of_nil in Hm|].
    eexists. split; [done|].
    pose proof (proj2 (py_min_by_spec message_time l x) m Hm). lia.
Qed.

(** One pass through the loop that ends it. *)
Lemma while_true_stop fuel idx acc s :
  let c := client env in
  page_messages c idx = []
  ∨ Exists (λ m, message_time m < last_message_ts (self s))
           (acc ++ page_messages c idx) →
  while_true env (S fuel) idx acc s =
  Some (with_calls s [get_alarm_list_call idx 1],
        Ok (if page_raises c idx then None
            else Some (acc ++ page_messages c idx))).
Proof.
  intros c. unfold page_messages, page_raises. subst c.
  cbn [while_true]. rewrite bind_run. unfold try_except, loop_try.
  rewrite bind_run. unfold await at 1.
  destruct (api.get_alarm_list (client env) idx 1) as [ml|e]; [|done].
  destruct (nonempty_messages ml) as [page|] eqn:Hp; simpl.
  - intros [->|Hex].
    { destruct ml as [[[[|]|]]|]; simplify_eq/=. }
    apply oldest_older_iff in Hex as (o & -> & Hlt).
    rewrite bind_run. unfold get_state. simpl.
    apply N.ltb_lt in Hlt. by rewrite Hlt.
  - intros _. by rewrite app_nil_r.
Qed.

(** One pass through the loop that goes on to the next page. *)
Lemma while_true_continue fuel idx acc s :
  let c := client env in
  ¬ (page_messages c idx = []
     ∨ Exists (λ m, message_time m < last_message_ts (self s))
              (acc ++ page_messages c idx)) →
  while_true env (S fuel) idx acc s =
  while_true env fuel (idx + 1) (acc ++ page_messages c idx)
             (with_calls s [get_alarm_list_call idx 1]).
Proof.
  intros c. unfold page_messages. subst c.
  cbn [while_true]. rewrite bind_run. unfold try_except, loop_try.
  rewrite bind_run. unfold await at 1.
  destruct (api.get_alarm_list (client env) idx 1) as [ml|e];
    [|intros []; by left].
  destruct (nonempty_messages ml) as [page|] eqn:Hp; simpl;
    [|intros []; by left].
  intros Hno. rewrite bind_run. unfold get_state. simpl.
  destruct (__get_oldest_message (acc ++ page)) as [o|] eqn:Ho; [|done].
  destruct (N.ltb_spec (message_time o) (last_message_ts (self s))); [|done].
  destruct Hno. right. apply oldest_older_iff. eauto.
Qed.

Lemma accumulated_S c n :
  accumulated c (S n) = accumulated c n ++ page_messages c (N.of_nat (S n)).
Proof.
  unfold accumulated. rewrite seq_S, flat_map_app. simpl.
  by rewrite app_nil_r.
Qed.

Lemma fetch_calls_S n :
  fetch_calls (S n) = fetch_calls n ++ [get_alarm_list_call (N.of_nat (S n)) 1].
Proof. unfold fetch_calls. by rewrite seq_S, map_app. Qed.

Lemma of_nat_succ n : N.of_nat (S n) + 1 = N.of_nat (S (S n)).
Proof. lia. Qed.

(** [k] passes that all go on. *)
Lemma while_true_run k : ∀ n fuel s,
  (∀ j, (n < j ≤ n + k)%nat →
        ¬ stops_at (client env) (last_message_ts (self s)) j) →
  while_true env (k + fuel) (N.of_nat (S n)) (accumulated (client env) n)
             (with_calls s (fetch_calls n)) =
  while_true env fuel (N.of_nat (S (n + k)))
             (accumulated (client env) (n + k))
             (with_calls s (fetch_calls (n + k))).
Proof.
  induction k as [|k IH]; intros n fuel s Hno.
  - by rewrite Nat.add_0_r.
  - cbn [Nat.add]. rewrite while_true_continue.
    + rewrite of_nat_succ, <- accumulated_S, with_calls_app, <- fetch_calls_S.
      rewrite IH; [by rewrite Nat.add_succ_comm|].
      intros j Hj. apply Hno. lia.
    + simpl. rewrite <- accumulated_S. apply (Hno (S n)). lia.
Qed.

(** The pagination returns at the first page that stops it. *)
Lemma get_all_alarm_messages_first_stop n fuel s :
  (1 ≤ n ≤ fuel)%nat →
  (∀ j, (1 ≤ j < n)%nat →
        ¬ stops_at (client env) (last_message_ts (self s)) j) →
  stops_at (client env) (last_message_ts (self s)) n →
  get_all_alarm_messages env fuel s =
  Some (with_calls s (fetch_calls n), Ok (returned_at (client env) n)).
Proof.
  intros Hn Hno Hstop. unfold get_all_alarm_messages.
  destruct n as [|n]; [lia|].
  replace fuel with (n + S (fuel - S n))%nat by lia.
  pose proof (while_true_run n 0 (S (fuel - S n)) s) as Hrun.
  rewrite with_calls_nil in Hrun.
  change (accumulated (client env) 0) with (@nil MessageEntity) in Hrun.
  change (N.of_nat 1) with 1 in Hrun.
  rewrite Hrun by (intros j Hj; apply Hno; lia). simpl Nat.add.
  rewrite while_true_stop.
  - by rewrite with_calls_app, <- fetch_calls_S, <- accumulated_S.
  - simpl. rewrite <- accumulated_S. apply Hstop.
Qed.

(** Conversely, a pagination that returns has met a page that stops it. *)
Lemma while_true_returns fuel : ∀ n s r,
  while_true env fuel (N.of_nat (S n)) (accumulated (client env) n)
             (with_calls s (fetch_calls n)) = Some r →
  ∃ k, (n < k ≤ n + fuel)%nat
       ∧ stops_at (client env) (last_message_ts (self s)) k
       ∧ (∀ j, (n < j < k)%nat →
               ¬ stops_at (client env) (last_message_ts (self s)) j).
Proof.
  induction fuel as [|fuel IH]; intros n s r; [done|].
  destruct (decide (stops_at (client env) (last_message_ts (self s)) (S n)))
    as [Hstop|Hno].
  - intros _. exists (S n). split; [lia|]. split; [done|]. intros j Hj. lia.
  - rewrite while_true_continue by (simpl; by rewrite <- accumulated_S).
    rewrite of_nat_succ, <- accumulated_S, with_calls_app, <- fetch_calls_S.
    intros (k & Hk & Hstop & Hfirst)%IH. exists k.
    split; [lia|]. split; [done|]. intros j Hj.
    destruct (decide (j = S n)) as [->|]; [done|]. apply Hfirst. lia.
Qed.

Lemma get_all_alarm_messages_returns fuel s r :
  get_all_alarm_messages env fuel s = Some r →
  ∃ n, (1 ≤ n ≤ fuel)%nat
       ∧ stops_at (client env) (last_message_ts (self s)) n
       ∧ (∀ j, (1 ≤ j < n)%nat →
               ¬ stops_at (client env) (last_message_ts (self s)) j)
       ∧ r = (with_calls s (fetch_calls n), Ok (returned_at (client env) n)).
Proof.
  intros Hr. pose proof (while_true_returns fuel 0 s r) as H.
  rewrite with_calls_nil in H. destruct (H Hr) as (n & Hn & Hstop & Hfirst).
  exists n. split; [lia|]. split; [done|].
  assert (∀ j, (1 ≤ j < n)%nat →
            ¬ stops_at (client env) (last_message_ts (self s)) j) as Hf
    by (intros j Hj; apply Hfirst; lia).
  split; [done|].
  rewrite (get_all_alarm_messages_first_stop n fuel s) in Hr by (done || lia).
  by injection Hr.
Qed.

End pagination.

(** ** One invocation of the check *)

Section check.
Context (env : Env).

Lemma trigger_refresh_run m s :
  trigger_refresh env m s =
  Some (with_calls s (option_list (async_request_refresh_call
                                     <$> coordinator_of env m)), Ok ()).
Proof.
  unfold trigger_refresh, coordinator_of.
  destruct (vin m ≫= _) as [c|]; simpl.
  - unfold try_except, await, with_calls.
    by destruct (async_request_refresh env c) as [[]|].
  - by rewrite with_calls_nil.
Qed.

(** The whole invocation in terms of the fetched list. *)
Lemma check_for_new_messages_run fuel s :
  check_for_new_messages env fuel s =
  match get_all_alarm_messages env fuel s with
  | None => None
  | Some (s1, Ok (Some l)) =>
      Some ({| self := checked (self s1) l;
               calls := calls s1 ++ mark_read_calls l
                        ++ refresh_calls env (self s1) l
                        ++ delete_calls
                             (last_message_id (checked (self s1) l)) l |},
            Ok ())
  | Some (s1, _) => Some (s1, Ok ())
  end.
Proof.
  unfold check_for_new_messages, try_except, check_try.
  rewrite bind_run.
  destruct (get_all_alarm_messages env fuel s) as [[s1 [[l|]|e]]|]; try done.
  cbn [iter]. rewrite bind_run. cbn [mret M_ret]. rewrite bind_run.
  rewrite (for_each_calls _ _ (read_message_run env)).
  rewrite bind_run. unfold get_state at 1. cbn [with_calls self calls].
  fold (mark_read_calls l). rewrite bind_run.
  unfold checked, refresh_calls, is_new.
  assert (∀ s2 : Run,
    (s3 ← get_state;
     for_each (filter (λ m, messageType m = Some "323"
                            ∧ messageId m ≠ last_message_id (self s3)) l)
              (__delete_message env);;
     set_self (λ h, {| last_message_ts := last_message_ts h;
                       last_message_id := last_message_id h;
                       first_call := false |})) s2 =
    Some ({| self := {| last_message_ts := last_message_ts (self s2);
                        last_message_id := last_message_id (self s2);
                        first_call := false |};
             calls := calls s2 ++ delete_calls (last_message_id (self s2)) l |},
          Ok ())) as Hdelete.
  { intros s2. rewrite bind_run. unfold get_state at 1. rewrite bind_run.
    by rewrite (for_each_calls _ _ (delete_message_run env)). }
  destruct (__get_latest_message l) as [m|]; cbn [mret M_ret].
  - destruct (decide _) as [Hnew|Hold]; cbn [mret M_ret].
    + rewrite bind_run. unfold set_self at 1, modify_state at 1.
      cbn [self calls]. destruct (first_call (self s1)); cbn [mret M_ret].
      * rewrite Hdelete. cbn [with_calls self calls].
        by rewrite <- ?app_assoc.
      * rewrite trigger_refresh_run, Hdelete. cbn [with_calls self calls].
        rewrite <- ?app_assoc. by destruct (coordinator_of env m).
    + rewrite Hdelete. cbn [with_calls self calls]. by rewrite <- ?app_assoc.
  - rewrite Hdelete. cbn [with_calls self calls]. by rewrite <- ?app_assoc.
Qed.

(** The pagination leaves the handler alone, only fetches, and never
    raises. *)
Lemma get_all_alarm_messages_frame fuel s s1 r :
  get_all_alarm_messages env fuel s = Some (s1, r) →
  self s1 = self s
  ∧ (∃ n, (1 ≤ n ≤ fuel)%nat ∧ calls s1 = calls s ++ fetch_calls n
          ∧ r = Ok (returned_at (client env) n)).
Proof.
  intros (n & Hn & _ & _ & [= -> ->])%get_all_alarm_messages_returns.
  split; [done|]. by exists n.
Qed.

(** An invocation whose fetch succeeded. *)
Lemma check_fetched fuel s s1 l :
  get_all_alarm_messages env fuel s = Some (s1, Ok (Some l)) →
  check_for_new_messages env fuel s =
  Some ({| self := checked (self s) l;
           calls := calls s1 ++ mark_read_calls l
                    ++ refresh_calls env (self s) l
                    ++ delete_calls (last_message_id (checked (self s) l)) l |},
        Ok ()).
Proof.
  intros Hget. rewrite check_for_new_messages_run, Hget.
  by destruct (get_all_alarm_messages_frame _ _ _ _ Hget) as [-> _].
Qed.

(** An invocation whose fetch failed. *)
Lemma check_not_fetched fuel s s1 :
  get_all_alarm_messages env fuel s = Some (s1, Ok None) →
  check_for_new_messages env fuel s = Some (s1, Ok ()) ∧ self s1 = self s.
Proof.
  intros Hget. rewrite check_for_new_messages_run, Hget. split; [done|].
  by destruct (get_all_alarm_messages_frame _ _ _ _ Hget) as [-> _].
Qed.

(** Every invocation that returns is one of the two. *)
Lemma check_returns fuel s s' r :
  check_for_new_messages env fuel s = Some (s', r) →
  r = Ok ()
  ∧ ((∃ s1 l, get_all_alarm_messages env fuel s = Some (s1, Ok (Some l))
        ∧ s' = {| self := checked (self s) l;
                  calls := calls s1 ++ mark_read_calls l
                           ++ refresh_calls env (self s) l
                           ++ delete_calls
                                (last_message_id (checked (self s) l)) l |})
     ∨ (get_all_alarm_messages env fuel s = Some (s', Ok None)
        ∧ self s' = self s)).
Proof.
  intros Hcheck.
  destruct (get_all_alarm_messages env fuel s) as [[s1 r1]|] eqn:Hget.
  - destruct (get_all_alarm_messages_frame _ _ _ _ Hget)
      as (_ & n & _ & _ & ->).
    destruct (returned_at (client env) n) as [l|].
    + rewrite (check_fetched _ _ _ _ Hget) in Hcheck.
      injection Hcheck as <- <-. split; [done|]. left. eauto.
    + destruct (check_not_fetched _ _ _ Hget) as [Hc Hself].
      rewrite Hc in Hcheck. injection Hcheck as <- <-. split; [done|].
      by right.
  - by rewrite check_for_new_messages_run, Hget in Hcheck.
Qed.

Lemma elem_of_mark_read_calls c l :
  c ∈ mark_read_calls l
  ↔ ∃ m i, m ∈ l ∧ read_status m ≠ "read" ∧ messageId m = Some i
           ∧ c = read_message_call i.
Proof.
  unfold mark_read_calls. rewrite list_elem_of_omap. split.
  - intros (m & [Hr Hm]%list_elem_of_filter & Hc).
    destruct (messageId m) as [i|] eqn:Hi; [|done]. injection Hc as <-.
    by exists m, i.
  - intros (m & i & Hm & Hr & Hi & ->). exists m.
    split; [by apply list_elem_of_filter|]. by rewrite Hi.
Qed.

Lemma elem_of_delete_calls c last l :
  c ∈ delete_calls last l
  ↔ ∃ m i, m ∈ l ∧ messageType m = Some "323" ∧ messageId m = Some i
           ∧ Some i ≠ last ∧ c = delete_message_call i.
Proof.
  unfold delete_calls, stale_vehicle_start. rewrite list_elem_of_omap. split.
  - intros (m & [[Ht Hne] Hm]%list_elem_of_filter & Hc).
    destruct (messageId m) as [i|] eqn:Hi; [|done]. injection Hc as <-.
    by exists m, i.
  - intros (m & i & Hm & Ht & Hi & Hne & ->). exists m.
    split; [apply list_elem_of_filter; by rewrite Hi|]. by rewrite Hi.
Qed.

Lemma elem_of_refresh_calls c h l :
  c ∈ refresh_calls env h l
  ↔ ∃ m k, __get_latest_message l = Some m ∧ is_new h m
           ∧ first_call h = false ∧ coordinator_of env m = Some k
           ∧ c = async_request_refresh_call k.
Proof.
  unfold refresh_calls. split.
  - destruct (__get_latest_message l) as [m|]; [|by intros ?%elem_of_nil].
    destruct (decide (is_new h m)); [|by intros ?%elem_of_nil].
    destruct (first_call h) eqn:Hf; [by intros ?%elem_of_nil|].
    destruct (coordinator_of env m) as [k|] eqn:Hk; [|by intros ?%elem_of_nil].
    intros ->%list_elem_of_singleton. by exists m, k.
  - intros (m & k & -> & Hnew & -> & -> & ->).
    rewrite decide_True by done. apply list_elem_of_singleton. done.
Qed.

Lemma refresh_calls_length h l : (length (refresh_calls env h l) ≤ 1)%nat.
Proof.
  unfold refresh_calls. repeat case_match; simpl; lia.
Qed.

End check.

(** ** The newest message *)

(** C6. For an empty fetched list no message is selected. For a non-empty
    one the selected message is a fetched message of maximal timestamp among
    all fetched messages, seen or not; whenever some fetched message is newer
    than the watermark, the selected one is newer than the watermark too, and
    so is a newest unseen message. *)
Theorem latest_message_is_newest_fetched (l : list MessageEntity) :
  (__get_latest_message l = None ↔ l = [])
  ∧ (l ≠ [] → ∃ m, __get_latest_message l = Some m)
  ∧ (∀ m, __get_latest_message l = Some m →
       m ∈ l
       ∧ (∀ m', m' ∈ l → message_time m' ≤ message_time m)
       ∧ (∀ h, Exists (unseen h) l → unseen h m)).
Proof.
  destruct l as [|x l]; simpl.
  - split; [done|]. split; [done|]. done.
  - split; [done|]. split; [eauto|]. intros m [= <-].
    destruct (py_max_by_spec message_time l x) as [Hin Hmax].
    split; [done|]. split; [done|].
    intros h (m' & Hm' & Hun)%Exists_exists. unfold unseen in *.
    specialize (Hmax m' Hm'). lia.
Qed.

(** An instance: of two fetched messages the later one is selected. *)
Lemma latest_message_is_newest_fetched_witness :
  let l := [sample_message 2 20 "323" "read"; sample_message 3 30 "323" "unread"] in
  l ≠ [] ∧ ∃ m, __get_latest_message l = Some m.
Proof.
  intros l. split; [done|].
  exact (proj1 (proj2 (latest_message_is_newest_fetched l)) ltac:(done)).
Defined.

(** C6 as stated fails: when an invocation fetches nothing new, here only the
    message the handler saw last, the selected message is one that was seen
    before. *)
Lemma latest_message_may_be_seen :
  ¬ (∀ (env : Env) (fuel : nat) (h : SAICMGMessageHandler) (s1 : Run)
       (l : list MessageEntity),
       get_all_alarm_messages env fuel (start h) = Some (s1, Ok (Some l)) →
       l ≠ [] →
       ∃ m, __get_latest_message l = Some m ∧ m ∈ l ∧ unseen h m
            ∧ ∀ m', m' ∈ l → unseen h m' →
                    message_time m' ≤ message_time m).
Proof.
  intros H.
  pose (l := [sample_message 3 30 "323" "read"]).
  destruct (H (sample_env (listing l)) 5%nat (seen 3 30) _ l eq_refl
              ltac:(done)) as (m & [= <-] & _ & Hun & _).
  unfold unseen in Hun. simpl in Hun. lia.
Qed.

(** ** Pagination *)

Lemma elem_of_accumulated c n m :
  m ∈ accumulated c n
  ↔ ∃ i, (1 ≤ i ≤ n)%nat ∧ m ∈ page_messages c (N.of_nat i).
Proof.
  unfold accumulated. rewrite list_elem_of_In, in_flat_map. split.
  - intros (i & Hi%in_seq & Hm%list_elem_of_In). exists i. split; [lia|done].
  - intros (i & Hi & Hm). exists i. rewrite in_seq, <- list_elem_of_In.
    split; [lia|done].
Qed.

(** Among the pages that stop the pagination there is a first one. *)
Lemma first_stop c ts n :
  (1 ≤ n)%nat → stops_at c ts n →
  ∃ k, (1 ≤ k ≤ n)%nat ∧ stops_at c ts k
       ∧ ∀ j, (1 ≤ j < k)%nat → ¬ stops_at c ts j.
Proof.
  induction (lt_wf n) as [n _ IH]. intros Hn Hstop.
  destruct (decide (Exists (stops_at c ts) (seq 1 (n - 1))))
    as [(j & Hj%elem_of_seq & Hs)%Exists_exists|Hnone].
  - destruct (IH j) as (k & Hk & Hsk & Hfirst); [lia..|done|].
    exists k. split; [lia|done].
  - exists n. split; [lia|]. split; [done|]. intros j Hj Hs. apply Hnone.
    apply Exists_exists. exists j. split; [|done]. apply elem_of_seq. lia.
Qed.

(** C2. The pagination fetches pages 1, 2, 3, ... in this order and returns
    at the first page that stops it: a page on which the call raises or that
    holds no message, or the first page with which the accumulated messages
    include one strictly older than the stored last-seen timestamp (a message
    exactly as old as the watermark does not stop it). It then returns the
    accumulated messages, or None when the call raised. When the API serves
    the messages newest first, the returned list holds every message newer
    than the watermark. *)
Theorem pagination_stops_at_first_older (env : Env) (s : Run) (n fuel : nat) :
  (1 ≤ n ≤ fuel)%nat →
  (∀ j, (1 ≤ j < n)%nat →
        ¬ stops_at (client env) (last_message_ts (self s)) j) →
  stops_at (client env) (last_message_ts (self s)) n →
  get_all_alarm_messages env fuel s =
    Some (with_calls s (fetch_calls n), Ok (returned_at (client env) n))
  ∧ (newest_first (client env) →
     ∀ l, returned_at (client env) n = Some l →
     ∀ j m, (1 ≤ j)%nat → m ∈ page_messages (client env) (N.of_nat j) →
            last_message_ts (self s) < message_time m → m ∈ l).
Proof.
  intros Hn Hfirst Hstop.
  split; [by apply get_all_alarm_messages_first_stop|].
  intros [Horder Hend] l Hl j m Hj Hm Hnew.
  unfold returned_at in Hl. destruct (page_raises _ _); [done|].
  injection Hl as <-. apply elem_of_accumulated.
  destruct (decide (j ≤ n)%nat) as [Hle|Hgt]; [by exists j|].
  exfalso. destruct Hstop as [Hempty|(m0 & Hm0 & Hold)%Exists_exists].
  - rewrite (Hend n j) in Hm by (done || lia). by apply elem_of_nil in Hm.
  - apply elem_of_accumulated in Hm0 as (i & Hi & Hm0).
    pose proof (Horder i j m0 m ltac:(lia) Hm0 Hm). lia.
Qed.

(** An instance: with the watermark at 20 and messages of times 30, 20, 10
    the pagination returns at page 3, the first with an older message. *)
Lemma pagination_stops_at_first_older_witness :
  let l := [sample_message 3 30 "323" "unread";
            sample_message 2 20 "323" "read";
            sample_message 1 10 "323" "read"] in
  let env := sample_env (listing l) in
  get_all_alarm_messages env 5 (start (seen 2 20)) =
    Some (with_calls (start (seen 2 20)) (fetch_calls 3),
          Ok (returned_at (client env) 3))
  ∧ returned_at (client env) 3 = Some l.
Proof.
  intros l env. split; [|done].
  refine (proj1 (pagination_stops_at_first_older env (start (seen 2 20)) 3 5
                   _ _ _)).
  - lia.
  - intros j Hj. assert (j = 1 ∨ j = 2)%nat as [->| ->] by lia.
    + intros [[=]|H]. unfold accumulated in H. cbv in H.
      rewrite ?Exists_cons, Exists_nil in H. by destruct H as [[=]|[]].
    + intros [[=]|H]. unfold accumulated in H. cbv in H.
      rewrite ?Exists_cons, Exists_nil in H.
      by destruct H as [[=]|[[=]|[]]].
  - right. unfold accumulated. simpl. do 2 apply Exists_cons_tl.
    apply Exists_cons_hd. simpl. lia.
Defined.

(** C2 as stated fails: a fetched message exactly as old as the watermark is
    a previously seen one, yet the pagination goes on to the next page. *)
Lemma pagination_passes_seen_message :
  ¬ (∀ (env : Env) (fuel : nat) (s s1 : Run) (l : list MessageEntity)
       (n : nat),
       get_all_alarm_messages env fuel s = Some (s1, Ok (Some l)) →
       (1 ≤ n)%nat →
       Exists (λ m, message_time m ≤ last_message_ts (self s))
              (accumulated (client env) n) →
       (length (calls s1) ≤ length (calls s) + n)%nat).
Proof.
  intros H.
  pose (l := [sample_message 3 30 "323" "read";
              sample_message 2 20 "323" "read"]).
  specialize (H (sample_env (listing l)) 5%nat (start (seen 3 30))
                (with_calls (start (seen 3 30)) (fetch_calls 2)) l 1%nat
                eq_refl ltac:(lia)).
  simpl in H. apply (Nat.nle_succ_diag_l 1), H.
  apply Exists_cons_hd. simpl. lia.
Qed.

Lemma fetch_calls_length n : length (fetch_calls n) = n.
Proof. unfold fetch_calls. by rewrite length_map, length_seq. Qed.

(** Against a client that serves on every page a message that is not older
    than the watermark, the loop uses up any amount of fuel. *)
Lemma endless_diverges m fuel : ∀ idx acc s,
  last_message_ts (self s) ≤ message_time m →
  Forall (λ x, last_message_ts (self s) ≤ message_time x) acc →
  while_true (sample_env (endless m)) fuel idx acc s = None.
Proof.
  induction fuel as [|fuel IH]; intros idx acc s Hm Hacc; [done|].
  rewrite while_true_continue.
  - apply IH; [done|]. apply Forall_app. split; [done|].
    by apply Forall_singleton.
  - simpl. intros [[=]|(x & Hx & Hlt)%Exists_exists].
    apply elem_of_app in Hx as [Hx| ->%list_elem_of_singleton]; [|lia].
    rewrite Forall_forall in Hacc. specialize (Hacc x Hx). simpl in Hacc. lia.
Qed.

(** C3. The loop has no bound of its own. It terminates exactly when some
    page stops it, and then within that many fetches: if page [n] stops the
    pagination, every run with fuel for [n] passes returns after at most [n]
    fetches; and a run that returns has met such a page. *)
Theorem pagination_terminates_iff_stopped (env : Env) (s : Run) :
  (∀ n fuel, (1 ≤ n ≤ fuel)%nat →
     stops_at (client env) (last_message_ts (self s)) n →
     ∃ s1 r, get_all_alarm_messages env fuel s = Some (s1, r)
             ∧ (length (calls s1) ≤ length (calls s) + n)%nat)
  ∧ (∀ fuel r, get_all_alarm_messages env fuel s = Some r →
     ∃ n, (1 ≤ n ≤ fuel)%nat
          ∧ stops_at (client env) (last_message_ts (self s)) n).
Proof.
  split.
  - intros n fuel Hn Hstop.
    destruct (first_stop _ _ n ltac:(lia) Hstop) as (k & Hk & Hsk & Hfirst).
    do 2 eexists. split.
    + apply (get_all_alarm_messages_first_stop env k); [lia|done..].
    + simpl. rewrite length_app, fetch_calls_length. lia.
  - intros fuel r (n & Hn & Hstop & _)%get_all_alarm_messages_returns. eauto.
Qed.

(** An instance: with the watermark at 20 and messages of times 30, 20, 10
    page 3 stops the pagination, which returns within three fetches. *)
Lemma pagination_terminates_iff_stopped_witness :
  let l := [sample_message 3 30 "323" "unread";
            sample_message 2 20 "323" "read";
            sample_message 1 10 "323" "read"] in
  let env := sample_env (listing l) in
  ∃ s1 r, get_all_alarm_messages env 5 (start (seen 2 20)) = Some (s1, r)
          ∧ (length (calls s1) ≤ 3)%nat.
Proof.
  intros l env.
  refine (proj1 (pagination_terminates_iff_stopped env (start (seen 2 20)))
            3%nat 5%nat _ _).
  - lia.
  - right. unfold accumulated. simpl. do 2 apply Exists_cons_tl.
    apply Exists_cons_hd. simpl. lia.
Defined.

(** C3 as stated fails: on the first invocation, against a client whose
    every page holds a message, the loop never returns. *)
Lemma pagination_may_not_terminate :
  ¬ (∀ (env : Env) (s : Run),
       ∃ fuel r, get_all_alarm_messages env fuel s = Some r).
Proof.
  intros H.
  destruct (H (sample_env (endless (sample_message 1 10 "323" "unread")))
              (start __init__)) as (fuel & r & Hr).
  unfold get_all_alarm_messages in Hr.
  rewrite endless_diverges in Hr; [done|apply N.le_0_l|done].
Qed.

(** ** The watermark *)

(** C4. An invocation never moves the stored timestamp backwards: either it
    leaves the watermark (id and timestamp) as it was, or it assigns both and
    the timestamp strictly increases. *)
Theorem last_message_ts_monotone (env : Env) (fuel : nat) (s s' : Run)
    (r : Result unit) :
  check_for_new_messages env fuel s = Some (s', r) →
  last_message_ts (self s) ≤ last_message_ts (self s')
  ∧ ((last_message_ts (self s') = last_message_ts (self s)
      ∧ last_message_id (self s') = last_message_id (self s))
     ∨ (last_message_ts (self s) < last_message_ts (self s')
        ∧ last_message_id (self s') ≠ last_message_id (self s))).
Proof.
  intros [_ [(s1 & l & _ & ->)|[_ ->]]]%check_returns; simpl.
  - unfold checked. destruct (__get_latest_message l) as [m|]; simpl.
    + destruct (decide (is_new (self s) m)) as [[Hid Hts]|]; simpl.
      * split; [lia|]. by right.
      * split; [lia|]. by left.
    + split; [lia|]. by left.
  - split; [lia|]. by left.
Qed.

(** An instance: a handler that saw message 2 at time 20 meets message 3 of
    time 30. *)
Lemma last_message_ts_monotone_witness :
  let l := [sample_message 3 30 "323" "unread";
            sample_message 2 20 "323" "read";
            sample_message 1 10 "323" "read"] in
  let env := sample_env (listing l) in
  ∃ s', check_for_new_messages env 5 (start (seen 2 20)) = Some (s', Ok ())
        ∧ last_message_ts (self s') = 30
        ∧ 20 ≤ last_message_ts (self s').
Proof.
  intros l env. eexists. split; [reflexivity|]. split; [reflexivity|].
  exact (proj1 (last_message_ts_monotone env 5 (start (seen 2 20)) _ _
                  eq_refl)).
Defined.

(** ** The calls of an invocation, by kind *)

Lemma filter_none {A} (P : A → Prop) `{!∀ x, Decision (P x)} (l : list A) :
  (∀ x, x ∈ l → ¬ P x) → filter P l = [].
Proof.
  induction l as [|x l IH]; intros Hl; [done|].
  rewrite filter_cons_False by (apply Hl; left).
  apply IH. intros y Hy. apply Hl. by right.
Qed.

Lemma filter_all {A} (P : A → Prop) `{!∀ x, Decision (P x)} (l : list A) :
  (∀ x, x ∈ l → P x) → filter P l = l.
Proof.
  induction l as [|x l IH]; intros Hl; [done|].
  rewrite filter_cons_True by (apply Hl; left).
  f_equal. apply IH. intros y Hy. apply Hl. by right.
Qed.

Lemma fetch_calls_kind n c :
  c ∈ fetch_calls n → ∃ i, c = get_alarm_list_call i 1.
Proof. intros (i & -> & _)%list_elem_of_fmap. eauto. Qed.

Lemma mark_read_calls_kind l c :
  c ∈ mark_read_calls l → ∃ i, c = read_message_call i.
Proof. intros (? & i & _ & _ & _ & ->)%elem_of_mark_read_calls. eauto. Qed.

Lemma delete_calls_kind last l c :
  c ∈ delete_calls last l → ∃ i, c = delete_message_call i.
Proof. intros (? & i & _ & _ & _ & _ & ->)%elem_of_delete_calls. eauto. Qed.

Lemma refresh_calls_kind env h l c :
  c ∈ refresh_calls env h l → ∃ k, c = async_request_refresh_call k.
Proof. intros (? & k & _ & _ & _ & _ & ->)%elem_of_refresh_calls. eauto. Qed.

(** The calls of an invocation come in four runs, one kind each. *)
Lemma calls_by_kind env n h l last :
  let cs := fetch_calls n ++ mark_read_calls l ++ refresh_calls env h l
            ++ delete_calls last l in
  filter (λ c, is_fetch c) cs = fetch_calls n
  ∧ filter (λ c, is_mark_read c) cs = mark_read_calls l
  ∧ filter (λ c, is_refresh c) cs = refresh_calls env h l
  ∧ filter (λ c, is_delete c) cs = delete_calls last l.
Proof.
  intros cs. subst cs. rewrite !filter_app.
  repeat split;
    repeat first
      [ rewrite filter_all
          by (intros c [? ->]%fetch_calls_kind; done)
      | rewrite filter_all
          by (intros c [? ->]%mark_read_calls_kind; done)
      | rewrite filter_all
          by (intros c [? ->]%refresh_calls_kind; done)
      | rewrite filter_all
          by (intros c [? ->]%delete_calls_kind; done)
      | rewrite filter_none
          by (intros c [? ->]%fetch_calls_kind; simpl; tauto)
      | rewrite filter_none
          by (intros c [? ->]%mark_read_calls_kind; simpl; tauto)
      | rewrite filter_none
          by (intros c [? ->]%refresh_calls_kind; simpl; tauto)
      | rewrite filter_none
          by (intros c [? ->]%delete_calls_kind; simpl; tauto) ];
    by rewrite ?app_nil_r.
Qed.

(** An invocation on a fresh call list, in full. *)
Lemma check_start env fuel h s' r :
  check_for_new_messages env fuel (start h) = Some (s', r) →
  r = Ok ()
  ∧ ∃ n, (1 ≤ n ≤ fuel)%nat
    ∧ get_all_alarm_messages env fuel (start h)
      = Some (with_calls (start h) (fetch_calls n),
              Ok (returned_at (client env) n))
    ∧ match returned_at (client env) n with
      | Some l =>
          s' = {| self := checked h l;
                  calls := fetch_calls n ++ mark_read_calls l
                           ++ refresh_calls env h l
                           ++ delete_calls (last_message_id (checked h l)) l |}
      | None => s' = {| self := h; calls := fetch_calls n |}
      end.
Proof.
  intros Hcheck.
  destruct (get_all_alarm_messages env fuel (start h)) as [[s1 r1]|] eqn:Hget;
    [|by rewrite check_for_new_messages_run, Hget in Hcheck].
  pose proof Hget as
    (n & Hn & _ & _ & [= -> ->])%get_all_alarm_messages_returns.
  rewrite check_for_new_messages_run, Hget in Hcheck.
  split; [destruct (returned_at _ n); by injection Hcheck|].
  exists n. split; [done|]. split; [done|].
  destruct (returned_at _ n); by injection Hcheck as <- <-.
Qed.

(** ** Requesting a refresh *)

(** C1. A refresh is requested only from the coordinator stored under the
    VIN of the newest fetched message, and only when that message passes the
    test against the watermark (another id, a strictly later time) and the
    invocation is not the handler's first. Whenever the newest fetched
    message is a vehicle start message that passes the test, the invocation
    is not the first and a coordinator is stored under the message's VIN, a
    refresh is requested from that coordinator. No invocation requests more
    than one refresh. *)
Theorem refresh_requested_after_first_call (env : Env) (fuel : nat)
    (h : SAICMGMessageHandler) (s' : Run) (r : Result unit) :
  check_for_new_messages env fuel (start h) = Some (s', r) →
  (∀ c, async_request_refresh_call c ∈ calls s' →
     ∃ s1 l m, get_all_alarm_messages env fuel (start h)
               = Some (s1, Ok (Some l))
               ∧ __get_latest_message l = Some m ∧ is_new h m
               ∧ first_call h = false ∧ coordinator_of env m = Some c)
  ∧ (∀ s1 l m c,
       get_all_alarm_messages env fuel (start h) = Some (s1, Ok (Some l)) →
       __get_latest_message l = Some m → messageType m = Some "323" →
       is_new h m → first_call h = false → coordinator_of env m = Some c →
       async_request_refresh_call c ∈ calls s')
  ∧ (length (filter (λ c, is_refresh c) (calls s')) ≤ 1)%nat.
Proof.
  intros (_ & n & _ & Hget & Hs')%check_start.
  destruct (returned_at (client env) n) as [l|]; subst s'; cbn [calls].
  - destruct (calls_by_kind env n h l (last_message_id (checked h l)))
      as (_ & _ & Hrefresh & _).
    split; [|split].
    + intros c Hc.
      assert (async_request_refresh_call c ∈ refresh_calls env h l) as Hin
        by (rewrite <- Hrefresh; by apply list_elem_of_filter).
      apply elem_of_refresh_calls in Hin
        as (m & k & Hm & Hnew & Hf & Hk & [= <-]). by eexists _, l, m.
    + intros s1 l1 m c Hget1 Hm _ Hnew Hf Hc.
      rewrite Hget in Hget1. injection Hget1 as _ <-.
      assert (async_request_refresh_call c ∈ refresh_calls env h l) as Hin
        by (apply elem_of_refresh_calls; by exists m, c).
      rewrite <- Hrefresh in Hin. by apply list_elem_of_filter in Hin as [_ ?].
    + rewrite Hrefresh. apply refresh_calls_length.
  - split; [|split].
    + by intros c [? [=]]%fetch_calls_kind.
    + intros s1 l m c Hget1. by rewrite Hget in Hget1.
    + rewrite filter_none; [simpl; lia|].
      intros c [? ->]%fetch_calls_kind. simpl. tauto.
Qed.

(** An instance: a handler that saw message 2 at time 20 meets the vehicle
    start message 3 of time 30 and asks the coordinator of VIN1. *)
Lemma refresh_requested_after_first_call_witness :
  let l := [sample_message 3 30 "323" "unread";
            sample_message 2 20 "323" "read";
            sample_message 1 10 "323" "read"] in
  let env := sample_env (listing l) in
  ∃ s', check_for_new_messages env 5 (start (seen 2 20)) = Some (s', Ok ())
        ∧ async_request_refresh_call {| coordinator_entry := "entry1" |}
            ∈ calls s'.
Proof.
  intros l env. eexists. split; [reflexivity|].
  refine (proj1 (proj2 (refresh_requested_after_first_call env 5
                          (start (seen 2 20)).(self) _ _ eq_refl))
            _ l (sample_message 3 30 "323" "unread") _
            eq_refl eq_refl eq_refl _ eq_refl eq_refl).
  split; [done|]. simpl. lia.
Defined.

(** C1 as stated fails: on the handler's first invocation a new vehicle
    start message whose VIN has a coordinator requests no refresh. *)
Lemma first_call_requests_no_refresh :
  ¬ (∀ (env : Env) (fuel : nat) (h : SAICMGMessageHandler) (s' s1 : Run)
       (r : Result unit) (l : list MessageEntity) (m : MessageEntity)
       (c : Coordinator),
       check_for_new_messages env fuel (start h) = Some (s', r) →
       get_all_alarm_messages env fuel (start h) = Some (s1, Ok (Some l)) →
       __get_latest_message l = Some m → messageType m = Some "323" →
       is_new h m → coordinator_of env m = Some c →
       async_request_refresh_call c ∈ calls s').
Proof.
  intros H.
  pose (l := [sample_message 3 30 "323" "unread"]).
  specialize (H (sample_env (listing l)) 5%nat __init__ _ _ _ l
                (sample_message 3 30 "323" "unread")
                {| coordinator_entry := "entry1" |}
                eq_refl eq_refl eq_refl eq_refl).
  vm_compute in H.
  assert (async_request_refresh_call {| coordinator_entry := "entry1" |}
            ∈ [get_alarm_list_call 1 1; get_alarm_list_call 2 1;
               read_message_call (IntId 3)]) as Hin.
  { apply H; [|done]. split; [done|]. reflexivity. }
  rewrite !elem_of_cons in Hin. destruct Hin as [[=]|[[=]|[[=]|Hin]]].
  by apply elem_of_nil in Hin.
Qed.

(** The newest message triggers the refresh whatever its type: here an alarm
    of type "101". *)
Example refresh_on_other_message_type :
  let l := [sample_message 3 30 "101" "unread";
            sample_message 2 20 "323" "read";
            sample_message 1 10 "323" "read"] in
  (λ p, calls (fst p)) <$>
     check_for_new_messages (sample_env (listing l)) 5 (start (seen 2 20))
  = Some [get_alarm_list_call 1 1; get_alarm_list_call 2 1;
          get_alarm_list_call 3 1; read_message_call (IntId 3);
          async_request_refresh_call {| coordinator_entry := "entry1" |};
          delete_message_call (IntId 2); delete_message_call (IntId 1)].
Proof. reflexivity. Qed.

(** ** Marking messages as read *)

(** C7. After a successful fetch the calls of an invocation are, in this
    order: the page fetches; one mark-read call for every fetched message
    whose read-status is not "read" and that has an id, in fetch order; and
    only then the refresh request and the deletions. A mark-read call is
    made for an id exactly when a fetched message with that id is not yet
    "read". The marking loop runs right after the fetch, on the handler as
    the invocation found it, so before the watermark is compared or
    assigned. *)
Theorem unread_messages_marked_read_first (env : Env) (fuel : nat)
    (h : SAICMGMessageHandler) (s1 : Run) (l : list MessageEntity) :
  get_all_alarm_messages env fuel (start h) = Some (s1, Ok (Some l)) →
  ∃ s' rest,
    check_for_new_messages env fuel (start h) = Some (s', Ok ())
    ∧ calls s' = calls s1 ++ mark_read_calls l ++ rest
    ∧ Forall (λ c, is_fetch c) (calls s1)
    ∧ Forall (λ c, is_refresh c ∨ is_delete c) rest
    ∧ (∀ i, read_message_call i ∈ calls s'
            ↔ ∃ m, m ∈ l ∧ read_status m ≠ "read" ∧ messageId m = Some i)
    ∧ for_each (filter (λ m, read_status m ≠ "read") l) (read_message env) s1
      = Some ({| self := h; calls := calls s1 ++ mark_read_calls l |}, Ok ()).
Proof.
  intros Hget. pose proof (check_fetched env _ _ _ _ Hget) as Hcheck.
  destruct (check_start env _ _ _ _ Hcheck) as (_ & n & _ & Hget' & _).
  rewrite Hget in Hget'. injection Hget' as -> _.
  do 2 eexists. split; [done|]. cbn [calls]. split; [done|].
  simpl. split; [|split; [|split]];
    [..|by rewrite (for_each_calls _ _ (read_message_run env))].
  - apply Forall_forall. by intros c [? ->]%fetch_calls_kind.
  - apply Forall_forall. intros c [[? ->]%refresh_calls_kind
                                  |[? ->]%delete_calls_kind]%elem_of_app;
      simpl; tauto.
  - intros i. destruct (calls_by_kind env n h l
                          (last_message_id (checked h l)))
      as (_ & Hread & _ & _).
    split.
    + intros Hin.
      assert (read_message_call i ∈ mark_read_calls l) as Hin'
        by (rewrite <- Hread; by apply list_elem_of_filter).
      apply elem_of_mark_read_calls in Hin' as (m & j & ? & ? & ? & [= <-]).
      by exists m.
    + intros (m & Hm & Hr & Hi).
      assert (read_message_call i ∈ mark_read_calls l) as Hin
        by (apply elem_of_mark_read_calls; by exists m, i).
      rewrite <- Hread in Hin. by apply list_elem_of_filter in Hin as [_ ?].
Qed.

(** An instance: of three fetched messages the first is unread. *)
Lemma unread_messages_marked_read_first_witness :
  let l := [sample_message 3 30 "323" "unread";
            sample_message 2 20 "323" "read";
            sample_message 1 10 "323" "read"] in
  let env := sample_env (listing l) in
  ∃ s' rest,
    check_for_new_messages env 5 (start (seen 2 20)) = Some (s', Ok ())
    ∧ calls s' = fetch_calls 3 ++ [read_message_call (IntId 3)] ++ rest.
Proof.
  intros l env.
  destruct (unread_messages_marked_read_first env 5 (seen 2 20) _ l eq_refl)
    as (s' & rest & Hcheck & Hcalls & _).
  by exists s', rest.
Defined.

(** ** Deleting stale vehicle start messages *)

(** C5. After a successful fetch the delete calls of an invocation are
    exactly those for the fetched messages of type "323" whose id differs
    from the last-seen id as stored after the watermark update, in fetch
    order (a message without an id reaches [__delete_message] but no API
    call is possible for it). Hence every such message with an id is
    deleted, every deleted id belongs to a fetched message of type "323",
    and the last-seen id is never deleted. *)
Theorem deletes_stale_vehicle_start_messages (env : Env) (fuel : nat)
    (h : SAICMGMessageHandler) (s1 : Run) (l : list MessageEntity) :
  get_all_alarm_messages env fuel (start h) = Some (s1, Ok (Some l)) →
  ∃ s',
    check_for_new_messages env fuel (start h) = Some (s', Ok ())
    ∧ filter (λ c, is_delete c) (calls s')
      = omap (λ m, delete_message_call <$> messageId m)
             (stale_vehicle_start (last_message_id (self s')) l)
    ∧ (∀ m i, m ∈ l → messageType m = Some "323" → messageId m = Some i →
              Some i ≠ last_message_id (self s') →
              delete_message_call i ∈ calls s')
    ∧ (∀ i, delete_message_call i ∈ calls s' →
            Some i ≠ last_message_id (self s')
            ∧ ∃ m, m ∈ l ∧ messageType m = Some "323"
                   ∧ messageId m = Some i).
Proof.
  intros Hget. pose proof (check_fetched env _ _ _ _ Hget) as Hcheck.
  destruct (check_start env _ _ _ _ Hcheck) as (_ & n & _ & Hget' & _).
  rewrite Hget in Hget'. injection Hget' as -> _.
  eexists. split; [done|]. cbn [calls self]. simpl.
  destruct (calls_by_kind env n h l (last_message_id (checked h l)))
    as (_ & _ & _ & Hdel).
  split; [done|]. split.
  - intros m i Hm Ht Hi Hne.
    assert (delete_message_call i
              ∈ delete_calls (last_message_id (checked h l)) l) as Hin
      by (apply elem_of_delete_calls; by exists m, i).
    rewrite <- Hdel in Hin. by apply list_elem_of_filter in Hin as [_ ?].
  - intros i Hin.
    assert (delete_message_call i
              ∈ delete_calls (last_message_id (checked h l)) l) as Hin'
      by (rewrite <- Hdel; by apply list_elem_of_filter).
    apply elem_of_delete_calls in Hin'
      as (m & j & Hm & Ht & Hj & Hne & [= <-]).
    split; [done|]. by exists m.
Qed.

(** An instance: messages 2 and 1 are stale once message 3 is the latest. *)
Lemma deletes_stale_vehicle_start_messages_witness :
  let l := [sample_message 3 30 "323" "unread";
            sample_message 2 20 "323" "read";
            sample_message 1 10 "323" "read"] in
  let env := sample_env (listing l) in
  ∃ s',
    check_for_new_messages env 5 (start (seen 2 20)) = Some (s', Ok ())
    ∧ filter (λ c, is_delete c) (calls s')
      = omap (λ m, delete_message_call <$> messageId m)
             (stale_vehicle_start (last_message_id (self s')) l).
Proof.
  intros l env.
  destruct (deletes_stale_vehicle_start_messages env 5 (seen 2 20) _ l
              eq_refl) as (s' & Hcheck & Hdel & _).
  by exists s'.
Defined.

(** ** Failures *)

(** C8. An invocation never hands an exception to its caller, whatever the
    client and the coordinator answer: it returns normally as soon as some
    page stops the pagination. When the fetch fails, that is when
    [get_alarm_list] raises on the page that ends the pagination, so that
    [get_all_alarm_messages] returns None, the invocation returns and leaves
    [last_message_id], [last_message_ts] and [first_call] as they were. *)
Theorem check_never_raises (env : Env) (fuel : nat) (s : Run) :
  (∀ s' r, check_for_new_messages env fuel s = Some (s', r) → r = Ok ())
  ∧ (∀ n, (1 ≤ n ≤ fuel)%nat →
       stops_at (client env) (last_message_ts (self s)) n →
       ∃ s', check_for_new_messages env fuel s = Some (s', Ok ()))
  ∧ (∀ s1, get_all_alarm_messages env fuel s = Some (s1, Ok None) →
       check_for_new_messages env fuel s = Some (s1, Ok ())
       ∧ self s1 = self s)
  ∧ (∀ n, (1 ≤ n ≤ fuel)%nat →
       (∀ j, (1 ≤ j < n)%nat →
             ¬ stops_at (client env) (last_message_ts (self s)) j) →
       page_raises (client env) (N.of_nat n) = true →
       ∃ s', check_for_new_messages env fuel s = Some (s', Ok ())
             ∧ self s' = self s).
Proof.
  split; [|split; [|split]].
  - intros s' r Hcheck. by destruct (check_returns env _ _ _ _ Hcheck).
  - intros n Hn Hstop.
    destruct (first_stop _ _ n ltac:(lia) Hstop) as (k & Hk & Hsk & Hfirst).
    pose proof (get_all_alarm_messages_first_stop env k fuel s
                  ltac:(lia) Hfirst Hsk) as Hget.
    rewrite check_for_new_messages_run, Hget.
    destruct (returned_at (client env) k); eauto.
  - apply check_not_fetched.
  - intros n Hn Hfirst Hraise.
    assert (stops_at (client env) (last_message_ts (self s)) n) as Hstop.
    { left. unfold page_raises in Hraise. unfold page_messages.
      by destruct (api.get_alarm_list _ _ _). }
    pose proof (get_all_alarm_messages_first_stop env n fuel s Hn Hfirst Hstop)
      as Hget.
    unfold returned_at in Hget. rewrite Hraise in Hget.
    destruct (check_not_fetched env _ _ _ Hget) as [Hcheck Hself]. eauto.
Qed.

(** An instance: the second page raises after the first served a new
    message; the handler is left as it was. *)
Lemma check_never_raises_witness :
  let env := sample_env (failing (sample_message 3 30 "323" "unread")) in
  ∃ s', check_for_new_messages env 5 (start (seen 2 20)) = Some (s', Ok ())
        ∧ self s' = seen 2 20.
Proof.
  intros env.
  refine (proj2 (proj2 (proj2 (check_never_raises env 5 (start (seen 2 20)))))
            2%nat _ _ eq_refl).
  - lia.
  - intros j Hj. assert (j = 1)%nat as -> by lia.
    intros [[=]|H]. unfold accumulated in H. cbv in H.
    rewrite ?Exists_cons, Exists_nil in H. by destruct H as [[=]|[]].
Defined.

(** ** The first invocation *)

(** C9. On an invocation with [first_call] set no refresh is requested. If
    the fetch succeeded and the newest fetched message passes the test
    against the watermark, the watermark becomes that message's id and time
    all the same. [first_call] is cleared exactly when the fetch did not
    fail. *)
Theorem first_call_requests_nothing (env : Env) (fuel : nat)
    (h : SAICMGMessageHandler) (s' : Run) (r : Result unit) :
  first_call h = true →
  check_for_new_messages env fuel (start h) = Some (s', r) →
  Forall (λ c, ¬ is_refresh c) (calls s')
  ∧ (∀ s1 l m,
       get_all_alarm_messages env fuel (start h) = Some (s1, Ok (Some l)) →
       __get_latest_message l = Some m → is_new h m →
       last_message_id (self s') = messageId m
       ∧ last_message_ts (self s') = message_time m)
  ∧ (first_call (self s') = false
     ↔ ∃ s1 l, get_all_alarm_messages env fuel (start h)
               = Some (s1, Ok (Some l))).
Proof.
  intros Hfirst (_ & n & _ & Hget & Hs')%check_start.
  destruct (returned_at (client env) n) as [l|]; subst s'; cbn [calls self].
  - assert (refresh_calls env h l = []) as ->.
    { unfold refresh_calls. rewrite Hfirst. by repeat case_match. }
    split; [|split].
    + apply Forall_forall. intros c.
      rewrite !elem_of_app.
      intros [[? ->]%fetch_calls_kind
             |[[? ->]%mark_read_calls_kind
              |[[]%elem_of_nil|[? ->]%delete_calls_kind]]]; simpl; tauto.
    + intros s1 l1 m Hget1 Hm Hnew.
      rewrite Hget in Hget1. injection Hget1 as _ <-.
      unfold checked. rewrite Hm, decide_True by done. done.
    + split; [eauto|]. intros _. unfold checked. by repeat case_match.
  - split; [|split].
    + apply Forall_forall. intros c [? ->]%fetch_calls_kind. simpl. tauto.
    + intros s1 l m Hget1. by rewrite Hget in Hget1.
    + rewrite Hfirst. split; [done|].
      intros (s1 & l & Hget1). by rewrite Hget in Hget1.
Qed.

(** An instance: the first invocation of a fresh handler meets message 3;
    the watermark moves to it and [first_call] is cleared. *)
Lemma first_call_requests_nothing_witness :
  let l := [sample_message 3 30 "323" "unread";
            sample_message 2 20 "323" "read"] in
  let env := sample_env (listing l) in
  ∃ s', check_for_new_messages env 5 (start __init__) = Some (s', Ok ())
        ∧ Forall (λ c, ¬ is_refresh c) (calls s')
        ∧ last_message_id (self s') = Some (IntId 3)
        ∧ last_message_ts (self s') = 30
        ∧ first_call (self s') = false.
Proof.
  intros l env. eexists. split; [reflexivity|].
  split; [|by vm_compute].
  exact (proj1 (first_call_requests_nothing env 5 __init__ _ _
                  eq_refl eq_refl)).
Defined.

(** ** Setting up config entries *)

Lemma handlers_created_snoc l c :
  init.handlers_created (l ++ [c])
  = (init.handlers_created l + if init.is_handler_new c then 1 else 0)%nat.
Proof.
  unfold init.handlers_created. rewrite filter_app, length_app.
  f_equal. by destruct c.
Qed.

Lemma callbacks_registered_snoc l c :
  init.callbacks_registered (l ++ [c])
  = (init.callbacks_registered l
     + if init.is_track_time_interval c then 1 else 0)%nat.
Proof.
  unfold init.callbacks_registered. rewrite filter_app, length_app.
  f_equal. by destruct c.
Qed.

(** The body of the [try], started on an existing domain dict. *)
Lemma setup_try_handler env entry client vin d cs hass' r :
  init.setup_try env entry client vin
    {| init.data_domain := Some d; init.calls := cs |} = Some (hass', r) →
  (is_Some (message_handler d) →
     init.data_domain hass' ≫= message_handler = message_handler d
     ∧ init.handlers_created (init.calls hass') = init.handlers_created cs
     ∧ init.callbacks_registered (init.calls hass')
       = init.callbacks_registered cs)
  ∧ (message_handler d = None → r = Ok true →
     is_Some (init.data_domain hass' ≫= message_handler)
     ∧ init.handlers_created (init.calls hass')
       = S (init.handlers_created cs)
     ∧ init.callbacks_registered (init.calls hass')
       = S (init.callbacks_registered cs)).
Proof.
  destruct d as [ec eco byvin mh].
  cbv [init.setup_try mbind M_bind mret M_ret init.call init.update_domain
       init.get_domain modify_state].
  cbn [init.data_domain init.calls message_handler].
  intros Hrun.
  destruct mh as [mh|];
    repeat (case_match; simplify_eq/=);
    rewrite ?handlers_created_snoc, ?callbacks_registered_snoc; simpl;
    (split; [intros [? ?]|intros ? ?]); simplify_eq/=;
    rewrite ?Nat.add_0_r; eauto.
  all: repeat split; eauto; lia.
Qed.

(** The handler recorded under "message_handler", if any. *)
Lemma async_setup_entry_handler env entry hass hass' r :
  init.async_setup_entry env entry hass = Some (hass', r) →
  (is_Some (init.recorded hass) →
     init.recorded hass' = init.recorded hass
     ∧ init.handlers_created (init.calls hass')
       = init.handlers_created (init.calls hass)
     ∧ init.callbacks_registered (init.calls hass')
       = init.callbacks_registered (init.calls hass))
  ∧ (init.recorded hass = None → r = Ok true →
     is_Some (init.recorded hass')
     ∧ init.handlers_created (init.calls hass')
       = S (init.handlers_created (init.calls hass))
     ∧ init.callbacks_registered (init.calls hass')
       = S (init.callbacks_registered (init.calls hass))).
Proof.
  unfold init.recorded.
  destruct hass as [d cs]. unfold init.async_setup_entry.
  rewrite bind_run. unfold init.setdefault_domain, modify_state at 1.
  cbn [init.data_domain init.calls]. rewrite bind_run.
  unfold init.getitem at 1.
  destruct (init.data entry !! "username") as [username|]; cbn [mret M_ret];
    [|intros [= <- <-]; destruct d; simpl; (split; [by intros [? ?]|done])].
  rewrite bind_run. unfold init.getitem at 1.
  destruct (init.data entry !! "password") as [password|]; cbn [mret M_ret];
    [|intros [= <- <-]; destruct d; simpl; (split; [by intros [? ?]|done])].
  unfold raise. unfold try_except.
  destruct (init.setup_try _ _ _ _ _) as [[s1 [b|e]]|] eqn:Htry; [..|done].
  - intros [= <- <-]. apply setup_try_handler in Htry as [Hsome Hnone].
    destruct d as [d|]; simpl in *; [done|].
    split; [by intros [? [=]]|by apply Hnone].
  - intros [= <- <-]. apply setup_try_handler in Htry as [Hsome _].
    destruct d as [d|]; simpl in *; (split; [|done]); [done|].
    by intros [? [=]].
Qed.

(** C10. Once a handler is recorded under "message_handler", a setup call
    leaves the record as it is, builds no [SAICMGMessageHandler] and
    registers no time-interval callback, whatever its outcome. Hence any
    sequence of successful [async_setup_entry] calls on one Home Assistant
    instance builds at most one handler and registers at most one
    callback. *)
Theorem at_most_one_message_handler :
  (∀ env entry hass hass' r,
     init.async_setup_entry env entry hass = Some (hass', r) →
     is_Some (init.recorded hass) →
     init.recorded hass' = init.recorded hass
     ∧ init.handlers_created (init.calls hass')
       = init.handlers_created (init.calls hass)
     ∧ init.callbacks_registered (init.calls hass')
       = init.callbacks_registered (init.calls hass))
  ∧ (∀ l hass hass' rs,
     init.setup_entries l hass = Some (hass', rs) →
     Forall (λ r, r = Ok true) rs →
     (init.handlers_created (init.calls hass')
      ≤ init.handlers_created (init.calls hass) + 1)%nat
     ∧ (init.callbacks_registered (init.calls hass')
        ≤ init.callbacks_registered (init.calls hass) + 1)%nat).
Proof.
  split.
  - intros env entry hass hass' r Hrun Hrec.
    by apply (async_setup_entry_handler _ _ _ _ _ Hrun).
  - assert (∀ l hass hass' rs,
        init.setup_entries l hass = Some (hass', rs) →
        is_Some (init.recorded hass) →
        init.handlers_created (init.calls hass')
        = init.handlers_created (init.calls hass)
        ∧ init.callbacks_registered (init.calls hass')
          = init.callbacks_registered (init.calls hass)) as Hrecorded.
    { induction l as [|[env entry] l IH]; intros hass hass' rs Hrun Hrec.
      - by injection Hrun as <- _.
      - simpl in Hrun.
        destruct (init.async_setup_entry env entry hass)
          as [[hass1 r]|] eqn:Hcall; [|done].
        destruct (init.setup_entries l hass1) as [[hass2 rs2]|] eqn:Hrest;
          [|done].
        injection Hrun as <- _.
        destruct (proj1 (async_setup_entry_handler _ _ _ _ _ Hcall) Hrec)
          as (Hrec1 & Hh & Hc).
        destruct (IH _ _ _ Hrest) as [Hh2 Hc2]; [by rewrite Hrec1|].
        split; congruence. }
    intros l hass hass' rs Hrun Hok.
    destruct (init.recorded hass) as [mh|] eqn:Hrec.
    { destruct (Hrecorded _ _ _ _ Hrun) as [-> ->]; [by rewrite Hrec|lia]. }
    destruct l as [|[env entry] l]; [injection Hrun as <- _; lia|].
    simpl in Hrun.
    destruct (init.async_setup_entry env entry hass)
      as [[hass1 r]|] eqn:Hcall; [|done].
    destruct (init.setup_entries l hass1) as [[hass2 rs2]|] eqn:Hrest;
      [|done].
    injection Hrun as <- <-. apply Forall_cons in Hok as [-> Hok].
    destruct (proj2 (async_setup_entry_handler _ _ _ _ _ Hcall) Hrec eq_refl)
      as (Hrec1 & Hh & Hc).
    destruct (Hrecorded _ _ _ _ Hrest Hrec1) as [-> ->]. lia.
Qed.

(** An instance: two vehicles of one account are set up on a fresh Home
    Assistant instance; one handler and one callback result. *)
Lemma at_most_one_message_handler_witness :
  let l := [(setup_succeeds, sample_entry "entry1" "VIN1");
            (setup_succeeds, sample_entry "entry2" "VIN2")] in
  ∃ hass',
    init.setup_entries l fresh_hass = Some (hass', [Ok true; Ok true])
    ∧ init.handlers_created (init.calls hass') = 1%nat
    ∧ (init.handlers_created (init.calls hass') ≤ 1)%nat
    ∧ (init.callbacks_registered (init.calls hass') ≤ 1)%nat.
Proof.
  intros l.
  destruct (init.setup_entries l fresh_hass) as [[hass' rs]|] eqn:Hrun;
    vm_compute in Hrun; [|done].
  injection Hrun as <- <-. eexists. split; [reflexivity|].
  split; [reflexivity|].
  refine (proj2 at_most_one_message_handler l fresh_hass _ _ _ _).
  - vm_compute. reflexivity.
  - by repeat constructor.
Defined.

(** * Further properties of the message handler *)

(** ** Failures of the side calls *)

(** The pagination looks at nothing but the answers of [get_alarm_list]. *)
Lemma while_true_ext env env' fuel :
  (∀ i k, api.get_alarm_list (client env) i k
          = api.get_alarm_list (client env') i k) →
  ∀ idx acc s, while_true env fuel idx acc s = while_true env' fuel idx acc s.
Proof.
  intros Hsame. induction fuel as [|fuel IH]; intros idx acc s; [done|].
  cbn [while_true]. rewrite !bind_run. unfold try_except, loop_try.
  rewrite !bind_run. unfold await. rewrite Hsame.
  destruct (api.get_alarm_list (client env') idx 1) as [ml|e]; [|done].
  destruct (nonempty_messages ml) as [page|]; simpl; [|done].
  rewrite !bind_run. unfold get_state. simpl.
  destruct (__get_oldest_message (acc ++ page)) as [o|]; simpl; [|apply IH].
  destruct (message_time o <? last_message_ts (self s)); simpl; [done|].
  apply IH.
Qed.

(** X1. Whether the mark-read, delete and refresh calls succeed or raise
    makes no difference to an invocation: two worlds that give the same
    pages and hold the same [hass.data] lead to the same handler state, the
    same calls in the same order and the same normal return. *)
Theorem check_ignores_call_failures (env env' : Env) (fuel : nat) (s : Run) :
  (∀ i k, api.get_alarm_list (client env) i k
          = api.get_alarm_list (client env') i k) →
  hass_data_domain env = hass_data_domain env' →
  check_for_new_messages env fuel s = check_for_new_messages env' fuel s.
Proof.
  intros Hpages Hdata. rewrite !check_for_new_messages_run.
  unfold get_all_alarm_messages. rewrite (while_true_ext env env') by done.
  destruct (while_true env' fuel 1 [] s) as [[s1 [[l|]|e]]|]; [|done..].
  do 4 f_equal. unfold refresh_calls, coordinator_of. by rewrite Hdata.
Qed.

(** An instance: the sample listing with every side call failing. *)
Lemma check_ignores_call_failures_witness :
  let l := [sample_message 3 30 "323" "unread";
            sample_message 2 20 "323" "read";
            sample_message 1 10 "323" "read"] in
  let env := sample_env (listing l) in
  check_for_new_messages env 5 (start (seen 2 20))
  = check_for_new_messages (with_failing_calls env) 5 (start (seen 2 20)).
Proof.
  intros l env.
  exact (check_ignores_call_failures env (with_failing_calls env) 5
           (start (seen 2 20)) (λ _ _, eq_refl) eq_refl).
Defined.

(** ** What the pagination does and leaves alone *)

(** X2. A pagination that returns has left the handler as it was and has not
    raised. Its calls are the fetches of pages 1 to [n], one message per page
    asked, for some [n] within the fuel. It returns None exactly when the
    last of these fetches raised; otherwise it returns the messages of all
    fetched pages, in fetch order, none dropped and none twice. *)
Theorem pagination_only_fetches (env : Env) (fuel : nat) (s s1 : Run)
    (r : Result (option (list MessageEntity))) :
  get_all_alarm_messages env fuel s = Some (s1, r) →
  self s1 = self s
  ∧ ∃ n, (1 ≤ n ≤ fuel)%nat
    ∧ calls s1 = calls s ++ fetch_calls n
    ∧ (∀ j, (1 ≤ j < n)%nat → page_raises (client env) (N.of_nat j) = false)
    ∧ ((page_raises (client env) (N.of_nat n) = true ∧ r = Ok None)
       ∨ (page_raises (client env) (N.of_nat n) = false
          ∧ r = Ok (Some (accumulated (client env) n)))).
Proof.
  intros (n & Hn & _ & Hfirst & [= -> ->])%get_all_alarm_messages_returns.
  split; [done|]. exists n. split; [done|]. split; [done|]. split.
  - intros j Hj. destruct (page_raises _ _) eqn:Hraise; [|done].
    destruct (Hfirst j Hj). left. unfold page_raises in Hraise.
    unfold page_messages. by destruct (api.get_alarm_list _ _ _).
  - unfold returned_at. destruct (page_raises _ _); [by left|by right].
Qed.

(** An instance: the failing client raises on its second page. *)
Lemma pagination_only_fetches_witness :
  let env := sample_env (failing (sample_message 3 30 "323" "unread")) in
  ∃ s1, get_all_alarm_messages env 5 (start (seen 2 20)) = Some (s1, Ok None)
        ∧ self s1 = seen 2 20.
Proof.
  intros env. eexists. split; [reflexivity|].
  exact (proj1 (pagination_only_fetches env 5 (start (seen 2 20)) _ _
                  eq_refl)).
Defined.




(** ** Polling an unchanged listing again *)

Lemma stops_at_mono c ts ts' n :
  ts ≤ ts' → stops_at c ts n → stops_at c ts' n.
Proof.
  intros Hle [Hempty|(m & Hm & Hlt)%Exists_exists]; [by left|].
  right. apply Exists_exists. exists m. split; [done|lia].
Qed.

Lemma page_raises_empty c i :
  page_raises c i = true → page_messages c i = [].
Proof.
  unfold page_raises, page_messages. by destruct (api.get_alarm_list c i 1).
Qed.

Lemma get_latest_message_max l m :
  __get_latest_message l = Some m →
  m ∈ l ∧ ∀ x, x ∈ l → message_time x ≤ message_time m.
Proof.
  destruct l as [|x l]; [done|]. intros [= <-]. apply py_max_by_spec.
Qed.

(** A newest message that fails the test changes nothing and requests
    nothing. *)
Lemma not_new_quiet env h l :
  (∀ m, __get_latest_message l = Some m → ¬ is_new h m) →
  refresh_calls env h l = []
  ∧ last_message_ts (checked h l) = last_message_ts h
  ∧ last_message_id (checked h l) = last_message_id h.
Proof.
  intros Hold. unfold refresh_calls, checked.
  destruct (__get_latest_message l) as [m|]; [|done].
  destruct (decide (is_new h m)) as [Hnew|]; [|done].
  by destruct (Hold m eq_refl).
Qed.

Lemma checked_ts_le h l : last_message_ts h ≤ last_message_ts (checked h l).
Proof.
  unfold checked. destruct (__get_latest_message l) as [m|]; simpl; [|lia].
  destruct (decide (is_new h m)) as [[_ ?]|]; simpl; lia.
Qed.

(** X4. Polling twice against an unchanged listing: after an invocation
    whose fetch succeeded, a second invocation in the same world returns,
    leaves the watermark where the first put it and requests no refresh. A
    message is acted upon once. *)
Theorem second_poll_is_quiet (env : Env) (fuel : nat)
    (h : SAICMGMessageHandler) (s1 : Run) (l : list MessageEntity) :
  get_all_alarm_messages env fuel (start h) = Some (s1, Ok (Some l)) →
  ∃ s' s'',
    check_for_new_messages env fuel (start h) = Some (s', Ok ())
    ∧ check_for_new_messages env fuel (start (self s')) = Some (s'', Ok ())
    ∧ last_message_ts (self s'') = last_message_ts (self s')
    ∧ last_message_id (self s'') = last_message_id (self s')
    ∧ Forall (λ c, ¬ is_refresh c) (calls s'').
Proof.
  intros Hget. pose proof (check_fetched env _ _ _ _ Hget) as Hcheck.
  apply get_all_alarm_messages_returns in Hget
    as (n & Hn & Hstop & Hfirst & [= _ Hret]).
  cbn [self start] in Hstop, Hfirst.
  unfold returned_at in Hret.
  destruct (page_raises (client env) (N.of_nat n)) eqn:Hraise; [done|].
  injection Hret as ->.
  set (h' := checked h (accumulated (client env) n)).
  pose proof (checked_ts_le h (accumulated (client env) n)) as Hle.
  fold h' in Hle.
  destruct (first_stop (client env) (last_message_ts h') n ltac:(lia)
              (stops_at_mono _ _ _ _ Hle Hstop)) as (k & Hk & Hsk & Hfk).
  assert (page_raises (client env) (N.of_nat k) = false) as Hraise_k.
  { destruct (decide (k = n)) as [->|Hne]; [done|].
    destruct (page_raises (client env) (N.of_nat k)) eqn:Hr; [|done].
    destruct (Hfirst k ltac:(lia)). left. by apply page_raises_empty. }
  pose proof (get_all_alarm_messages_first_stop env k fuel (start h')
                ltac:(lia) Hfk Hsk) as Hget2.
  unfold returned_at in Hget2. rewrite Hraise_k in Hget2.
  assert (∀ m, __get_latest_message (accumulated (client env) k) = Some m →
               ¬ is_new h' m) as Hold.
  { intros m' Hm' [Hid Hts].
    pose proof (get_latest_message_max _ _ Hm') as [Hin _].
    assert (m' ∈ accumulated (client env) n) as Hin_n.
    { apply elem_of_accumulated in Hin as (i & Hi & Hin).
      apply elem_of_accumulated. exists i. split; [lia|done]. }
    subst h'. unfold checked in Hid, Hts, Hfk, Hsk.
    destruct (__get_latest_message (accumulated (client env) n))
      as [m|] eqn:Hlatest.
    - destruct (decide (is_new h m)) as [Hnew|Hnot]; simpl in *.
      + apply get_latest_message_max in Hlatest as [_ Hmax].
        specialize (Hmax m' Hin_n). lia.
      + assert (k = n) as ->.
        { destruct (decide (k = n)) as [|Hne]; [done|].
          destruct (Hfirst k ltac:(lia) Hsk). }
        rewrite Hlatest in Hm'. injection Hm' as <-. by apply Hnot.
    - destruct (accumulated (client env) n) as [|x xs]; [|done].
      by apply elem_of_nil in Hin_n. }
  destruct (not_new_quiet env h' _ Hold) as (Hrefresh & Hts & Hid).
  change (self (start h)) with h in Hcheck. fold h' in Hcheck.
  eexists _, _. split; [exact Hcheck|].
  split; [exact (check_fetched env _ _ _ _ Hget2)|]. cbn [self calls start].
  split; [done|]. split; [done|]. rewrite Hrefresh.
  apply Forall_forall. intros c. simpl. rewrite !elem_of_app.
  intros [[? ->]%fetch_calls_kind
         |[[? ->]%mark_read_calls_kind|[? ->]%delete_calls_kind]];
    simpl; tauto.
Qed.

(** An instance: the sample listing polled twice by a handler that had seen
    message 2. *)
Lemma second_poll_is_quiet_witness :
  let l := [sample_message 3 30 "323" "unread";
            sample_message 2 20 "323" "read";
            sample_message 1 10 "323" "read"] in
  let env := sample_env (listing l) in
  ∃ s' s'',
    check_for_new_messages env 5 (start (seen 2 20)) = Some (s', Ok ())
    ∧ check_for_new_messages env 5 (start (self s')) = Some (s'', Ok ())
    ∧ last_message_ts (self s'') = last_message_ts (self s')
    ∧ last_message_id (self s'') = last_message_id (self s')
    ∧ Forall (λ c, ¬ is_refresh c) (calls s'').
Proof.
  intros l env.
  exact (second_poll_is_quiet env 5 (seen 2 20) _ l eq_refl).
Defined.

(** ** The timer *)



(** ** An empty inbox *)

(** X6. When the first page comes back without messages (no response, no
    list, or an empty list), the invocation makes that one fetch and no
    other call, keeps the watermark and clears [first_call]. *)
Theorem empty_inbox_clears_first_call (env : Env) (fuel : nat)
    (h : SAICMGMessageHandler) (message_list : option MessageResp) :
  api.get_alarm_list (client env) 1 1 = Ok message_list →
  nonempty_messages message_list = None →
  check_for_new_messages env (S fuel) (start h)
  = Some ({| self := {| last_message_ts := last_message_ts h;
                        last_message_id := last_message_id h;
                        first_call := false |};
             calls := [get_alarm_list_call 1 1] |}, Ok ()).
Proof.
  intros Hpage Hnone.
  assert (page_messages (client env) (N.of_nat 1) = []) as Hempty.
  { unfold page_messages. change (N.of_nat 1) with 1.
    by rewrite Hpage, Hnone. }
  pose proof (get_all_alarm_messages_first_stop env 1 (S fuel) (start h)
                ltac:(lia) ltac:(intros; lia) (or_introl Hempty)) as Hget.
  unfold returned_at, page_raises in Hget.
  change (N.of_nat 1) with 1 in Hget.
  rewrite Hpage in Hget. rewrite accumulated_S, Hempty in Hget.
  by rewrite (check_fetched env _ _ _ _ Hget).
Qed.

(** An instance: a client with no messages and a fresh handler. *)
Lemma empty_inbox_clears_first_call_witness :
  check_for_new_messages (sample_env (listing [])) 1 (start __init__)
  = Some ({| self := {| last_message_ts := datetime_min;
                        last_message_id := None;
                        first_call := false |};
             calls := [get_alarm_list_call 1 1] |}, Ok ()).
Proof.
  exact (empty_inbox_clears_first_call (sample_env (listing [])) 0 __init__
           _ eq_refl eq_refl).
Defined.

(** * Further properties of the entry setup *)

(** ** The body of the setup, case by case *)

Ltac setup_try_unfold :=
  cbv [init.setup_try mbind M_bind mret M_ret init.call init.update_domain
       init.get_domain modify_state vin_verified by_vin];
  cbn [init.data_domain init.calls].

Ltac setup_try_cases :=
  setup_try_unfold; intros; repeat (case_match; simplify_eq/=).

(** The body always ends, on a domain dict that is still there, after calls
    of its own. *)
Lemma setup_try_total env entry client vin d cs :
  ∃ d' cs' r,
    init.setup_try env entry client vin
      {| init.data_domain := Some d; init.calls := cs |}
    = Some ({| init.data_domain := Some d'; init.calls := cs ++ cs' |}, r).
Proof.
  destruct d as [ec eco byvin mh].
  setup_try_cases; rewrite <- ?app_assoc;
    try (by eexists _, [], _; rewrite app_nil_r);
    by eexists _, _, _.
Qed.

(** A body that returns True went through every step. *)
Lemma setup_try_true env entry client vin d cs hass' :
  init.setup_try env entry client vin
    {| init.data_domain := Some d; init.calls := cs |}
  = Some (hass', Ok true) →
  (∃ v, vin_verified env vin v)
  ∧ init.coordinator_async_setup env = Ok ()
  ∧ init.add_update_listener env = Ok ()
  ∧ init.async_forward_entry_setups env = Ok ()
  ∧ init.async_setup_services env = Ok ()
  ∧ (message_handler d = None → init.async_track_time_interval env = Ok ())
  ∧ is_Some (init.recorded hass').
Proof.
  destruct d as [ec eco byvin mh]. unfold init.recorded.
  setup_try_cases;
    repeat match goal with
           | u : () |- _ => destruct u
           | H : negb _ = false |- _ =>
               apply negb_false_iff, bool_decide_eq_true in H
           end;
    (split; [eexists; split; [done|]; split; [done|]; split; [done|];
             by eexists|]);
    repeat split; eauto; done.
Qed.

(** Without a verified VIN the body stores nothing and does not return
    True. *)
Lemma setup_try_unverified env entry client vin d cs hass' r :
  ¬ (∃ v, vin_verified env vin v) →
  init.setup_try env entry client vin
    {| init.data_domain := Some d; init.calls := cs |} = Some (hass', r) →
  init.data_domain hass' = Some d ∧ r ≠ Ok true
  ∧ init.handlers_created (init.calls hass') = init.handlers_created cs.
Proof.
  destruct d as [ec eco byvin mh]. intros Hno.
  assert (∀ v vehicles, vin = Some v → v ≠ "" → init.login env = Ok () →
            init.get_vehicle_info env = Ok vehicles →
            negb (bool_decide
                    (Exists (λ x, init.vehicle_vin x = Some v) vehicles))
            = false → False) as Hcontra.
  { intros v vs ? ? ? ? Hex%negb_false_iff%bool_decide_eq_true.
    apply Hno. exists v. repeat split; eauto. }
  clear Hno. revert Hcontra.
  setup_try_cases;
    repeat match goal with u : () |- _ => destruct u end;
    rewrite ?handlers_created_snoc; simpl; rewrite ?Nat.add_0_r;
    try done;
    by exfalso; eapply Hcontra.
Qed.

(** With a verified VIN the client is stored, and so is the coordinator once
    it is set up, whatever happens afterwards. *)
Lemma setup_try_registers env entry client vin v d cs hass' r :
  vin_verified env vin v →
  init.setup_try env entry client vin
    {| init.data_domain := Some d; init.calls := cs |} = Some (hass', r) →
  ∃ d', init.data_domain hass' = Some d'
    ∧ entry_clients d' !! init.entry_id entry = Some client
    ∧ (init.coordinator_async_setup env = Ok () →
       entry_coordinators d' !! (init.entry_id entry +:+ "_coordinator")
       = Some (coordinator_of_entry entry)
       ∧ by_vin d' v = Some (coordinator_of_entry entry)).
Proof.
  destruct d as [ec eco byvin mh].
  intros (-> & Hv & Hlogin & vs & Hvs & Hex).
  apply (bool_decide_eq_true_2 _) in Hex. unfold coordinator_of_entry.
  setup_try_unfold. rewrite Hlogin. destruct v as [|a v]; [done|].
  rewrite Hvs, Hex. cbn [negb].
  intros; repeat (case_match; simplify_eq/=);
    eexists; (split; [done|]); simpl;
    (split; [by simplify_map_eq|]); intros; by simplify_map_eq.
Qed.

(** The body touches nothing but the keys of its own entry and VIN, removes
    nothing, and leaves a recorded handler alone. *)
Lemma setup_try_frame env entry client vin d cs hass' r :
  init.setup_try env entry client vin
    {| init.data_domain := Some d; init.calls := cs |} = Some (hass', r) →
  ∃ d', init.data_domain hass' = Some d'
    ∧ (∀ k, k ≠ init.entry_id entry →
            entry_clients d' !! k = entry_clients d !! k)
    ∧ (∀ k, k ≠ init.entry_id entry +:+ "_coordinator" →
            entry_coordinators d' !! k = entry_coordinators d !! k)
    ∧ (∀ v, vin ≠ Some v → by_vin d' v = by_vin d v)
    ∧ (∀ k, is_Some (entry_clients d !! k) →
            is_Some (entry_clients d' !! k))
    ∧ (∀ k, is_Some (entry_coordinators d !! k) →
            is_Some (entry_coordinators d' !! k))
    ∧ (∀ v, is_Some (by_vin d v) → is_Some (by_vin d' v))
    ∧ (is_Some (message_handler d) → message_handler d' = message_handler d).
Proof.
  destruct d as [ec eco byvin mh].
  setup_try_cases; eexists; (split; [done|]); simpl;
    repeat split; intros; try done;
    try (by rewrite lookup_insert_ne by congruence);
    try (rewrite lookup_insert; case_decide; by simplify_eq/=);
    by destruct H.
Qed.

(** ** The setup as a whole *)

(** The state the body of the [try] starts from. *)
Lemma async_setup_entry_unfold env entry hass :
  init.async_setup_entry env entry hass =
  let hass0 := {| init.data_domain :=
                    Some (default empty_domain (init.data_domain hass));
                  init.calls := init.calls hass |} in
  match init.data entry !! "username", init.data entry !! "password" with
  | Some u, Some p =>
      try_except (init.setup_try env entry (client_of entry u p)
                    (init.data entry !! "vin"))
                 (λ _, mret false) hass0
  | None, _ => Some (hass0, Raise (KeyError "username"))
  | Some _, None => Some (hass0, Raise (KeyError "password"))
  end.
Proof.
  unfold init.async_setup_entry. rewrite bind_run.
  unfold init.setdefault_domain, modify_state at 1. rewrite bind_run.
  unfold init.getitem.
  destruct (init.data entry !! "username") as [u|]; [|done].
  cbn [mret M_ret]. rewrite bind_run.
  by destruct (init.data entry !! "password") as [p|].
Qed.

(** A setup that has its credentials is its body with the exceptions turned
    into False. *)
Lemma async_setup_entry_body env entry hass hass' r u p :
  init.data entry !! "username" = Some u →
  init.data entry !! "password" = Some p →
  init.async_setup_entry env entry hass = Some (hass', r) →
  ∃ r0, init.setup_try env entry (client_of entry u p)
          (init.data entry !! "vin")
          {| init.data_domain :=
               Some (default empty_domain (init.data_domain hass));
             init.calls := init.calls hass |} = Some (hass', r0)
        ∧ r = match r0 with Ok b => Ok b | Raise _ => Ok false end.
Proof.
  intros Hu Hp. rewrite async_setup_entry_unfold, Hu, Hp. simpl.
  unfold try_except.
  destruct (init.setup_try _ _ _ _ _) as [[h1 [b|e]]|]; [..|done];
    intros [= <- <-]; eauto.
Qed.

(** X7. [async_setup_entry] always ends. It raises exactly when the entry's
    data lack "username" or "password" (the two lookups before the [try]);
    it has then created the domain dict and done nothing else. Every other
    failure comes back as False. *)
Theorem setup_raises_only_without_credentials (env : init.Env)
    (entry : init.ConfigEntry) (hass : init.HomeAssistant) :
  ∃ hass' r,
    init.async_setup_entry env entry hass = Some (hass', r)
    ∧ ((∃ e, r = Raise e)
       ↔ init.data entry !! "username" = None
         ∨ init.data entry !! "password" = None)
    ∧ ((∃ e, r = Raise e) →
       init.calls hass' = init.calls hass
       ∧ init.data_domain hass'
         = Some (default empty_domain (init.data_domain hass))).
Proof.
  rewrite async_setup_entry_unfold. simpl.
  destruct (init.data entry !! "username") as [u|];
    [|eexists _, _; split; [done|]; split; [|done]; split; eauto].
  destruct (init.data entry !! "password") as [p|];
    [|eexists _, _; split; [done|]; split; [|done]; split; eauto].
  destruct (setup_try_total env entry (client_of entry u p)
              (init.data entry !! "vin")
              (default empty_domain (init.data_domain hass))
              (init.calls hass)) as (d' & cs' & r0 & Htry).
  unfold try_except. rewrite Htry.
  destruct r0 as [b|e]; eexists _, _; (split; [done|]);
    (split; [split; [by intros [? ?]|by intros [?|?]]|by intros [? ?]]).
Qed.

(** X8. Without a verified VIN (the login fails, the entry names no VIN or
    an empty one, the vehicle list cannot be fetched or does not hold the
    VIN) the setup stores nothing beyond the domain dict, builds no handler
    and does not return True; with credentials present it returns False. *)
Theorem setup_without_verified_vin_stores_nothing (env : init.Env)
    (entry : init.ConfigEntry) (hass hass' : init.HomeAssistant)
    (r : Result bool) :
  ¬ (∃ v, vin_verified env (init.data entry !! "vin") v) →
  init.async_setup_entry env entry hass = Some (hass', r) →
  init.data_domain hass'
  = Some (default empty_domain (init.data_domain hass))
  ∧ init.handlers_created (init.calls hass')
    = init.handlers_created (init.calls hass)
  ∧ r ≠ Ok true
  ∧ (is_Some (init.data entry !! "username") →
     is_Some (init.data entry !! "password") → r = Ok false).
Proof.
  intros Hno Hrun.
  destruct (init.data entry !! "username") as [u|] eqn:Hu;
    [|rewrite async_setup_entry_unfold, Hu in Hrun; injection Hrun as <- <-;
      repeat split; try done; by intros [? ?]].
  destruct (init.data entry !! "password") as [p|] eqn:Hp;
    [|rewrite async_setup_entry_unfold, Hu, Hp in Hrun;
      injection Hrun as <- <-; repeat split; try done; by intros _ [? ?]].
  destruct (async_setup_entry_body _ _ _ _ _ _ _ Hu Hp Hrun)
    as (r0 & Htry & ->).
  destruct (setup_try_unverified _ _ _ _ _ _ _ _ Hno Htry)
    as (Hd & Hr & Hh).
  split; [done|]. split; [done|].
  destruct r0 as [[]|e]; done.
Qed.

(** An instance: an entry without a VIN on a fresh instance. *)
Lemma setup_without_verified_vin_stores_nothing_witness :
  let entry := {| init.entry_id := "entry1";
                  init.data := {[ "username" := "user";
                                  "password" := "secret" ]} |} in
  ∃ hass', init.async_setup_entry setup_succeeds entry fresh_hass
           = Some (hass', Ok false)
           ∧ init.data_domain hass' = Some empty_domain.
Proof.
  intros entry.
  destruct (init.async_setup_entry setup_succeeds entry fresh_hass)
    as [[hass' r]|] eqn:Hrun; vm_compute in Hrun; [|done].
  injection Hrun as <- <-. eexists. split; [reflexivity|].
  refine (proj1 (setup_without_verified_vin_stores_nothing setup_succeeds
                   entry fresh_hass _ _ _ _)).
  - by intros (v & [=] & _).
  - vm_compute. reflexivity.
Defined.

(** X9. A setup that returns True has verified the VIN, got every later
    step through, and left behind: the client under the entry id, the
    coordinator under the entry's coordinator key and under the VIN, and a
    handler record. *)
Theorem successful_setup_registers_entry (env : init.Env)
    (entry : init.ConfigEntry) (hass hass' : init.HomeAssistant) :
  init.async_setup_entry env entry hass = Some (hass', Ok true) →
  ∃ d' v u p,
    init.data_domain hass' = Some d'
    ∧ vin_verified env (init.data entry !! "vin") v
    ∧ init.data entry !! "username" = Some u
    ∧ init.data entry !! "password" = Some p
    ∧ entry_clients d' !! init.entry_id entry = Some (client_of entry u p)
    ∧ entry_coordinators d' !! (init.entry_id entry +:+ "_coordinator")
      = Some (coordinator_of_entry entry)
    ∧ by_vin d' v = Some (coordinator_of_entry entry)
    ∧ is_Some (message_handler d')
    ∧ init.coordinator_async_setup env = Ok ()
    ∧ init.add_update_listener env = Ok ()
    ∧ init.async_forward_entry_setups env = Ok ()
    ∧ init.async_setup_services env = Ok ().
Proof.
  intros Hrun.
  destruct (init.data entry !! "username") as [u|] eqn:Hu;
    [|by rewrite async_setup_entry_unfold, Hu in Hrun].
  destruct (init.data entry !! "password") as [p|] eqn:Hp;
    [|by rewrite async_setup_entry_unfold, Hu, Hp in Hrun].
  destruct (async_setup_entry_body _ _ _ _ _ _ _ Hu Hp Hrun)
    as (r0 & Htry & Hr).
  destruct r0 as [[]|e]; try done.
  destruct (setup_try_true _ _ _ _ _ _ _ Htry)
    as ([v Hv] & Hc & Hl & Hf & Hs & _ & Hrec).
  destruct (setup_try_registers _ _ _ _ _ _ _ _ _ Hv Htry)
    as (d' & Hd' & Hclient & Hcoord).
  destruct (Hcoord Hc) as [Hkey Hvin].
  exists d', v, u, p. unfold init.recorded in Hrec. rewrite Hd' in Hrec.
  by split_and!.
Qed.

(** An instance: the first vehicle on a fresh instance. *)
Lemma successful_setup_registers_entry_witness :
  ∃ hass' d',
    init.async_setup_entry setup_succeeds (sample_entry "entry1" "VIN1")
      fresh_hass = Some (hass', Ok true)
    ∧ init.data_domain hass' = Some d'
    ∧ by_vin d' "VIN1" = Some {| coordinator_entry := "entry1" |}.
Proof.
  destruct (init.async_setup_entry setup_succeeds
              (sample_entry "entry1" "VIN1") fresh_hass)
    as [[hass' r]|] eqn:Hrun; vm_compute in Hrun; [|done].
  injection Hrun as <- <-.
  destruct (successful_setup_registers_entry setup_succeeds
              (sample_entry "entry1" "VIN1") fresh_hass _
              ltac:(vm_compute; reflexivity))
    as (d' & v & u & p & Hd' & (Hv & _) & _ & _ & _ & _ & Hvin & _).
  injection Hv as <-. eexists _, d'. split; [reflexivity|]. by split.
Defined.

(** X10. A setup, whatever its outcome, touches no key of another entry:
    clients under other entry ids, coordinators under other keys and under
    other VINs stay as they are; nothing that was stored is removed; and a
    recorded handler is left alone. *)
Theorem setup_leaves_other_entries (env : init.Env)
    (entry : init.ConfigEntry) (hass hass' : init.HomeAssistant)
    (r : Result bool) :
  init.async_setup_entry env entry hass = Some (hass', r) →
  let d := default empty_domain (init.data_domain hass) in
  ∃ d', init.data_domain hass' = Some d'
    ∧ (∀ k, k ≠ init.entry_id entry →
            entry_clients d' !! k = entry_clients d !! k)
    ∧ (∀ k, k ≠ init.entry_id entry +:+ "_coordinator" →
            entry_coordinators d' !! k = entry_coordinators d !! k)
    ∧ (∀ v, init.data entry !! "vin" ≠ Some v → by_vin d' v = by_vin d v)
    ∧ (∀ k, is_Some (entry_clients d !! k) →
            is_Some (entry_clients d' !! k))
    ∧ (∀ k, is_Some (entry_coordinators d !! k) →
            is_Some (entry_coordinators d' !! k))
    ∧ (∀ v, is_Some (by_vin d v) → is_Some (by_vin d' v))
    ∧ (is_Some (message_handler d) → message_handler d' = message_handler d).
Proof.
  intros Hrun d.
  destruct (init.data entry !! "username") as [u|] eqn:Hu;
    [|rewrite async_setup_entry_unfold, Hu in Hrun; injection Hrun as <- _;
      by exists d].
  destruct (init.data entry !! "password") as [p|] eqn:Hp;
    [|rewrite async_setup_entry_unfold, Hu, Hp in Hrun;
      injection Hrun as <- _; by exists d].
  destruct (async_setup_entry_body _ _ _ _ _ _ _ Hu Hp Hrun)
    as (r0 & Htry & _).
  by apply setup_try_frame in Htry.
Qed.

(** An instance: setting up the second vehicle keeps the first one's
    registration. *)
Lemma setup_leaves_other_entries_witness :
  ∃ hass1 hass2 d2,
    init.async_setup_entry setup_succeeds (sample_entry "entry1" "VIN1")
      fresh_hass = Some (hass1, Ok true)
    ∧ init.async_setup_entry setup_succeeds (sample_entry "entry2" "VIN2")
        hass1 = Some (hass2, Ok true)
    ∧ init.data_domain hass2 = Some d2
    ∧ is_Some (entry_clients d2 !! "entry1").
Proof.
  destruct (init.async_setup_entry setup_succeeds
              (sample_entry "entry1" "VIN1") fresh_hass)
    as [[hass1 r1]|] eqn:Hrun1; [|by vm_compute in Hrun1].
  destruct (init.async_setup_entry setup_succeeds
              (sample_entry "entry2" "VIN2") hass1)
    as [[hass2 r2]|] eqn:Hrun2;
    [|vm_compute in Hrun1; injection Hrun1 as <- <-; by vm_compute in Hrun2].
  destruct (setup_leaves_other_entries _ _ _ _ _ Hrun2)
    as (d2 & Hd2 & _ & _ & _ & Hkeep & _).
  exists hass1, hass2, d2.
  assert (r1 = Ok true ∧ r2 = Ok true) as [-> ->].
  { vm_compute in Hrun1. injection Hrun1 as <- <-.
    vm_compute in Hrun2. by injection Hrun2 as _ <-. }
  split; [done|]. split; [done|]. split; [done|].
  apply Hkeep. vm_compute in Hrun1. injection Hrun1 as <-.
  vm_compute. eauto.
Defined.

(** X11. Nothing is rolled back: once the VIN is verified the client stays
    stored under the entry id, and once the coordinator is set up it stays
    stored under its key and under the VIN, also when a later step fails and
    the setup returns False. *)
Theorem failed_setup_is_not_rolled_back (env : init.Env)
    (entry : init.ConfigEntry) (hass hass' : init.HomeAssistant)
    (r : Result bool) (u p v : string) :
  init.data entry !! "username" = Some u →
  init.data entry !! "password" = Some p →
  vin_verified env (init.data entry !! "vin") v →
  init.async_setup_entry env entry hass = Some (hass', r) →
  ∃ d', init.data_domain hass' = Some d'
    ∧ entry_clients d' !! init.entry_id entry = Some (client_of entry u p)
    ∧ (init.coordinator_async_setup env = Ok () →
       entry_coordinators d' !! (init.entry_id entry +:+ "_coordinator")
       = Some (coordinator_of_entry entry)
       ∧ by_vin d' v = Some (coordinator_of_entry entry))
    ∧ ((∃ e, init.async_setup_services env = Raise e) → r = Ok false).
Proof.
  intros Hu Hp Hv Hrun.
  destruct (async_setup_entry_body _ _ _ _ _ _ _ Hu Hp Hrun)
    as (r0 & Htry & ->).
  destruct (setup_try_registers _ _ _ _ _ _ _ _ _ Hv Htry)
    as (d' & Hd' & Hclient & Hcoord).
  exists d'. split; [done|]. split; [done|]. split; [done|].
  intros [e He]. destruct r0 as [[]|]; try done.
  apply setup_try_true in Htry as (_ & _ & _ & _ & Hs & _). congruence.
Qed.

(** An instance: the services fail to register; the setup returns False and
    the client of the entry is stored all the same. *)
Lemma failed_setup_is_not_rolled_back_witness :
  ∃ hass' d',
    init.async_setup_entry setup_services_fail (sample_entry "entry1" "VIN1")
      fresh_hass = Some (hass', Ok false)
    ∧ init.data_domain hass' = Some d'
    ∧ is_Some (entry_clients d' !! "entry1")
    ∧ by_vin d' "VIN1" = Some {| coordinator_entry := "entry1" |}.
Proof.
  destruct (init.async_setup_entry setup_services_fail
              (sample_entry "entry1" "VIN1") fresh_hass)
    as [[hass' r]|] eqn:Hrun; [|by vm_compute in Hrun].
  assert (vin_verified setup_services_fail
            (init.data (sample_entry "entry1" "VIN1") !! "vin") "VIN1") as Hv.
  { split; [by vm_compute|]. split; [done|]. split; [done|].
    eexists. split; [done|]. by apply Exists_cons_hd. }
  destruct (failed_setup_is_not_rolled_back setup_services_fail
              (sample_entry "entry1" "VIN1") fresh_hass hass' r
              "user" "secret" "VIN1" ltac:(by vm_compute)
              ltac:(by vm_compute) Hv Hrun)
    as (d' & Hd' & Hclient & Hcoord & Hfalse).
  rewrite (Hfalse ltac:(by eexists)). exists hass', d'.
  split; [done|]. split; [done|]. split; [by eexists|].
  by apply Hcoord.
Defined.

(** ** From the setup to the handler *)

(** X12. The setup and the handler meet in [coordinators_by_vin]: after a
    setup that returned True for an entry with VIN [v], an invocation of the
    handler that reads this [hass.data], is not the handler's first, and
    finds a newest message of VIN [v] that passes the test against the
    watermark, asks the coordinator of that entry to refresh. *)
Theorem refresh_reaches_registered_coordinator (senv : init.Env)
    (entry : init.ConfigEntry) (hass hass' : init.HomeAssistant)
    (d' : DomainData) (v : string) (env : Env) (fuel : nat)
    (h : SAICMGMessageHandler) (s1 : Run) (l : list MessageEntity)
    (m : MessageEntity) :
  init.async_setup_entry senv entry hass = Some (hass', Ok true) →
  init.data_domain hass' = Some d' →
  init.data entry !! "vin" = Some v →
  hass_data_domain env = d' →
  get_all_alarm_messages env fuel (start h) = Some (s1, Ok (Some l)) →
  __get_latest_message l = Some m → is_new h m → first_call h = false →
  vin m = Some v →
  ∃ s', check_for_new_messages env fuel (start h) = Some (s', Ok ())
        ∧ async_request_refresh_call (coordinator_of_entry entry) ∈ calls s'.
Proof.
  intros Hrun Hd' Hvin Henv Hget Hm Hnew Hfirst Hmv.
  destruct (init.data entry !! "username") as [u|] eqn:Hu;
    [|by rewrite async_setup_entry_unfold, Hu in Hrun].
  destruct (init.data entry !! "password") as [p|] eqn:Hp;
    [|by rewrite async_setup_entry_unfold, Hu, Hp in Hrun].
  destruct (async_setup_entry_body _ _ _ _ _ _ _ Hu Hp Hrun)
    as (r0 & Htry & Hr).
  destruct r0 as [[]|e]; try done.
  destruct (setup_try_true _ _ _ _ _ _ _ Htry) as ([v' Hv] & Hc & _).
  assert (v' = v) as -> by (destruct Hv as [Hv _]; congruence).
  destruct (setup_try_registers _ _ _ _ _ _ _ _ _ Hv Htry)
    as (d2 & Hd2 & _ & Hcoord).
  assert (d2 = d') as -> by congruence.
  destruct (Hcoord Hc) as [_ Hby].
  eexists. split; [exact (check_fetched env _ _ _ _ Hget)|]. cbn [calls].
  rewrite !elem_of_app. right. right. left.
  apply elem_of_refresh_calls. exists m, (coordinator_of_entry entry).
  split; [done|]. split; [done|]. split; [done|]. split; [|done].
  unfold coordinator_of. rewrite Hmv, Henv. exact Hby.
Qed.

(** An instance: the first vehicle is set up, then the handler meets a new
    message of that vehicle. *)
Lemma refresh_reaches_registered_coordinator_witness :
  let l := [sample_message 3 30 "323" "unread";
            sample_message 2 20 "323" "read"] in
  ∃ hass' d' s',
    init.async_setup_entry setup_succeeds (sample_entry "entry1" "VIN1")
      fresh_hass = Some (hass', Ok true)
    ∧ init.data_domain hass' = Some d'
    ∧ check_for_new_messages
        {| client := listing l; hass_data_domain := d';
           async_request_refresh := λ _, Ok () |} 5 (start (seen 2 20))
      = Some (s', Ok ())
    ∧ async_request_refresh_call {| coordinator_entry := "entry1" |}
        ∈ calls s'.
Proof.
  intros l.
  destruct (init.async_setup_entry setup_succeeds
              (sample_entry "entry1" "VIN1") fresh_hass)
    as [[hass' r]|] eqn:Hrun; [|by vm_compute in Hrun].
  assert (r = Ok true) as ->
    by (vm_compute in Hrun; by injection Hrun as _ <-).
  destruct (init.data_domain hass') as [d'|] eqn:Hd';
    [|vm_compute in Hrun; injection Hrun as <-; by vm_compute in Hd'].
  destruct (refresh_reaches_registered_coordinator setup_succeeds
              (sample_entry "entry1" "VIN1") fresh_hass hass' d' "VIN1"
              {| client := listing l; hass_data_domain := d';
                 async_request_refresh := λ _, Ok () |} 5 (seen 2 20)
              _ l (sample_message 3 30 "323" "unread")
              Hrun Hd' ltac:(by vm_compute) eq_refl eq_refl eq_refl
              ltac:(split; [done|simpl; lia]) eq_refl eq_refl)
    as (s' & Hcheck & Hin).
  by exists hass', d', s'.
Defined.

(** * The options listener and the unload *)

Lemma lifecycle_setup_inv env entry hass hass1 r :
  lifecycle.async_setup_entry env entry hass = Some (hass1, r) →
  ∃ ih, init.async_setup_entry env entry
          {| init.data_domain := lifecycle.data_domain hass;
             init.calls := [] |} = Some (ih, r)
        ∧ lifecycle.data_domain hass1 = init.data_domain ih
        ∧ lifecycle.calls hass1
          = lifecycle.calls hass ++ (lifecycle.setup <$> init.calls ih).
Proof.
  unfold lifecycle.async_setup_entry.
  destruct (init.async_setup_entry _ _ _) as [[ih r']|]; [|done].
  intros [= <- <-]. by exists ih.
Qed.

Lemma lifecycle_handlers_created_setup cs l :
  lifecycle.handlers_created (cs ++ (lifecycle.setup <$> l))
  = (lifecycle.handlers_created cs + init.handlers_created l)%nat.
Proof.
  unfold lifecycle.handlers_created, init.handlers_created.
  rewrite filter_app, length_app. f_equal.
  induction l as [|c l IH]; [done|]. rewrite fmap_cons.
  destruct (init.is_handler_new c) eqn:Hc.
  - rewrite !filter_cons_True by (simpl; by rewrite Hc). simpl. by rewrite IH.
  - by rewrite !filter_cons_False by (simpl; rewrite Hc; intros []).
Qed.

Lemma lifecycle_services_unloaded_setup cs l :
  lifecycle.services_unloaded (cs ++ (lifecycle.setup <$> l))
  = lifecycle.services_unloaded cs.
Proof.
  unfold lifecycle.services_unloaded. rewrite filter_app, length_app.
  rewrite (filter_none _ (lifecycle.setup <$> l));
    [by rewrite Nat.add_0_r|].
  intros c (? & -> & _)%list_elem_of_fmap. simpl. tauto.
Qed.

Ltac unload_cases :=
  cbv [lifecycle.async_unload_entry lifecycle.update_listener mbind M_bind
       mret M_ret lifecycle.call lifecycle.get_domain lifecycle.set_domain
       lifecycle.getitem modify_state raise];
  cbn [lifecycle.data_domain lifecycle.calls];
  intros; repeat (case_match; simplify_eq/=).

(** What an unload does to the domain dict and to the services. *)
Lemma async_unload_entry_domain p u entry d cs hass' r :
  lifecycle.async_unload_entry p u entry
    {| lifecycle.data_domain := Some d; lifecycle.calls := cs |}
  = Some (hass', r) →
  ∃ d', lifecycle.data_domain hass' = Some d'
    ∧ entry_coordinators d' = entry_coordinators d
    ∧ coordinators_by_vin d' = coordinators_by_vin d
    ∧ message_handler d' = message_handler d
    ∧ (∀ k, k ≠ init.entry_id entry →
            entry_clients d' !! k = entry_clients d !! k)
    ∧ (r = Ok true → entry_clients d' !! init.entry_id entry = None)
    ∧ (r = Ok true → is_Some (entry_clients d !! init.entry_id entry))
    ∧ (lifecycle.handlers_created (lifecycle.calls hass')
       = lifecycle.handlers_created cs)
    ∧ (¬ lifecycle.domain_empty
           {| entry_clients := ∅;
              entry_coordinators := entry_coordinators d;
              coordinators_by_vin := coordinators_by_vin d;
              message_handler := message_handler d |} →
       lifecycle.services_unloaded (lifecycle.calls hass')
       = lifecycle.services_unloaded cs).
Proof.
  destruct d as [ec eco byvin mh].
  assert (∀ (l : list lifecycle.Call) c,
            lifecycle.handlers_created (l ++ [c])
            = (lifecycle.handlers_created l
               + if lifecycle.is_handler_new c then 1 else 0)%nat) as Hh.
  { intros l c. unfold lifecycle.handlers_created.
    rewrite filter_app, length_app. f_equal.
    by destruct (lifecycle.is_handler_new c) eqn:Hc;
      [rewrite filter_cons_True by (by rewrite Hc)
      |rewrite filter_cons_False by (rewrite Hc; intros [])]. }
  assert (∀ (l : list lifecycle.Call) c,
            lifecycle.services_unloaded (l ++ [c])
            = (lifecycle.services_unloaded l
               + if lifecycle.is_unload_services c then 1 else 0)%nat) as Hs.
  { intros l c. unfold lifecycle.services_unloaded.
    rewrite filter_app, length_app. f_equal.
    by destruct (lifecycle.is_unload_services c) eqn:Hc;
      [rewrite filter_cons_True by (by rewrite Hc)
      |rewrite filter_cons_False by (rewrite Hc; intros [])]. }
  unload_cases; eexists; (split; [done|]); simpl;
    rewrite ?Hh, ?Hs; simpl; rewrite ?Nat.add_0_r;
    split_and!; intros; try done;
    try (by rewrite lookup_delete_ne by congruence);
    try (by rewrite lookup_delete_eq);
    try (by eexists).
  all: exfalso;
    match goal with
    | H : ¬ lifecycle.domain_empty _, d : lifecycle.domain_empty _ |- _ =>
        apply H; pose proof d as (_ & ? & ? & ?); by split_and!
    end.
Qed.




(** ** Unloading what is not there *)

(** X14. When the platforms do not unload, [async_unload_entry] returns
    False and leaves [hass.data] alone. When they do, but no client is
    stored under the entry id (or the domain dict is missing), the [pop]
    raises KeyError to the caller, [hass.data] is left alone and the
    services are not unloaded. *)
Theorem unload_without_client_raises (u : Result unit)
    (entry : init.ConfigEntry) (hass : lifecycle.HomeAssistant) :
  let called :=
    {| lifecycle.data_domain := lifecycle.data_domain hass;
       lifecycle.calls :=
         lifecycle.calls hass
         ++ [lifecycle.async_unload_platforms_call (init.entry_id entry)] |}
  in
  lifecycle.async_unload_entry (Ok false) u entry hass
  = Some (called, Ok false)
  ∧ (lifecycle.data_domain hass ≫= (λ d, entry_clients d
                                          !! init.entry_id entry) = None →
     ∃ key, lifecycle.async_unload_entry (Ok true) u entry hass
            = Some (called, Raise (KeyError key))).
Proof.
  destruct hass as [[d|] cs]; simpl; (split; [done|]).
  - intros Hnone. exists (init.entry_id entry).
    unfold lifecycle.async_unload_entry. rewrite bind_run. simpl.
    rewrite !bind_run. simpl. unfold lifecycle.getitem. by rewrite Hnone.
  - intros _. by eexists.
Qed.

(** An instance: an unload on an instance that never loaded the
    integration. *)
Lemma unload_without_client_raises_witness :
  ∃ hass' key,
    lifecycle.async_unload_entry (Ok true) (Ok ())
      (sample_entry "entry1" "VIN1") fresh_instance
    = Some (hass', Raise (KeyError key)).
Proof.
  destruct (proj2 (unload_without_client_raises (Ok ())
                     (sample_entry "entry1" "VIN1") fresh_instance) eq_refl)
    as [key Hrun].
  by eexists _, key.
Defined.

(** ** A set-up entry, unloaded *)

(** What a setup that returned True has stored. *)
Lemma setup_true_stored env entry hass hass' :
  init.async_setup_entry env entry hass = Some (hass', Ok true) →
  ∃ d' v u p,
    init.data_domain hass' = Some d'
    ∧ vin_verified env (init.data entry !! "vin") v
    ∧ init.data entry !! "username" = Some u
    ∧ init.data entry !! "password" = Some p
    ∧ entry_clients d' !! init.entry_id entry = Some (client_of entry u p)
    ∧ entry_coordinators d' !! (init.entry_id entry +:+ "_coordinator")
      = Some (coordinator_of_entry entry)
    ∧ by_vin d' v = Some (coordinator_of_entry entry)
    ∧ is_Some (message_handler d').
Proof.
  intros Hrun.
  destruct (init.data entry !! "username") as [u|] eqn:Hu;
    [|by rewrite async_setup_entry_unfold, Hu in Hrun].
  destruct (init.data entry !! "password") as [p|] eqn:Hp;
    [|by rewrite async_setup_entry_unfold, Hu, Hp in Hrun].
  destruct (async_setup_entry_body _ _ _ _ _ _ _ Hu Hp Hrun)
    as (r0 & Htry & Hr).
  destruct r0 as [[]|e]; try done.
  destruct (setup_try_true _ _ _ _ _ _ _ Htry)
    as ([v Hv] & Hc & _ & _ & _ & _ & Hrec).
  destruct (setup_try_registers _ _ _ _ _ _ _ _ _ Hv Htry)
    as (d' & Hd' & Hclient & Hcoord).
  destruct (Hcoord Hc) as [Hkey Hvin].
  exists d', v, u, p. unfold init.recorded in Hrec. rewrite Hd' in Hrec.
  by split_and!.
Qed.

(** An unload that finds the client and leaves other keys behind. *)
Lemma async_unload_entry_ok u entry d cs c :
  entry_clients d !! init.entry_id entry = Some c →
  entry_coordinators d ≠ ∅ →
  lifecycle.async_unload_entry (Ok true) u entry
    {| lifecycle.data_domain := Some d; lifecycle.calls := cs |}
  = Some ({| lifecycle.data_domain :=
               Some {| entry_clients :=
                         delete (init.entry_id entry) (entry_clients d);
                       entry_coordinators := entry_coordinators d;
                       coordinators_by_vin := coordinators_by_vin d;
                       message_handler := message_handler d |};
             lifecycle.calls :=
               cs ++ [lifecycle.async_unload_platforms_call
                        (init.entry_id entry)] |}, Ok true).
Proof.
  intros Hc Hne. unfold lifecycle.async_unload_entry.
  rewrite bind_run. simpl. rewrite !bind_run. simpl.
  unfold lifecycle.getitem. rewrite Hc.
  cbv [mbind M_bind mret M_ret lifecycle.set_domain lifecycle.get_domain
       modify_state].
  cbn [lifecycle.data_domain lifecycle.calls].
  rewrite decide_False; [done|]. by intros (_ & ? & _).
Qed.

(** X15. Unloading an entry right after its successful setup returns True
    and removes the entry's client, and that is all: the services are not
    unloaded (the dict still holds the entry's coordinator), the handler
    record stays, and [coordinators_by_vin] still hands the entry's
    coordinator to the message handler. *)
Theorem unload_after_setup_keeps_the_rest (env : init.Env) (u : Result unit)
    (entry : init.ConfigEntry) (hass hass1 : lifecycle.HomeAssistant) :
  lifecycle.async_setup_entry env entry hass = Some (hass1, Ok true) →
  ∃ hass2 d2 v,
    lifecycle.async_unload_entry (Ok true) u entry hass1
    = Some (hass2, Ok true)
    ∧ lifecycle.services_unloaded (lifecycle.calls hass2)
      = lifecycle.services_unloaded (lifecycle.calls hass1)
    ∧ lifecycle.data_domain hass2 = Some d2
    ∧ entry_clients d2 !! init.entry_id entry = None
    ∧ init.data entry !! "vin" = Some v
    ∧ by_vin d2 v = Some (coordinator_of_entry entry)
    ∧ lifecycle.recorded hass2 = lifecycle.recorded hass1
    ∧ is_Some (lifecycle.recorded hass2).
Proof.
  intros (ih & Hrun & Hdata & Hcalls)%lifecycle_setup_inv.
  destruct (setup_true_stored _ _ _ _ Hrun)
    as (d1 & v & us & p & Hd1 & (Hv & _) & _ & _ & Hclient & Hkey & Hby & Hmh).
  destruct hass1 as [dd cs1]. simpl in *. subst dd. rewrite Hd1.
  assert (entry_coordinators d1 ≠ ∅) as Hne
    by (intros Hempty; by rewrite Hempty in Hkey).
  rewrite (async_unload_entry_ok u entry d1 cs1 _ Hclient Hne).
  eexists _, _, v. split; [done|]. cbn [lifecycle.calls lifecycle.data_domain].
  split_and!; try done.
  - unfold lifecycle.services_unloaded.
    rewrite filter_app, length_app. simpl. lia.
  - simpl. apply lookup_delete_eq.
Qed.

(** An instance: the first vehicle set up on a fresh instance, then
    unloaded. *)
Lemma unload_after_setup_keeps_the_rest_witness :
  ∃ hass1 hass2,
    lifecycle.async_setup_entry setup_succeeds (sample_entry "entry1" "VIN1")
      fresh_instance = Some (hass1, Ok true)
    ∧ lifecycle.async_unload_entry (Ok true) (Ok ())
        (sample_entry "entry1" "VIN1") hass1 = Some (hass2, Ok true)
    ∧ lifecycle.services_unloaded (lifecycle.calls hass2)
      = lifecycle.services_unloaded (lifecycle.calls hass1)
    ∧ is_Some (lifecycle.recorded hass2).
Proof.
  destruct (lifecycle.async_setup_entry setup_succeeds
              (sample_entry "entry1" "VIN1") fresh_instance)
    as [[hass1 r]|] eqn:Hrun; [|by vm_compute in Hrun].
  assert (r = Ok true) as ->
    by (vm_compute in Hrun; by injection Hrun as _ <-).
  destruct (unload_after_setup_keeps_the_rest setup_succeeds (Ok ())
              (sample_entry "entry1" "VIN1") fresh_instance hass1 Hrun)
    as (hass2 & d2 & v & Hun & Hs & _ & _ & _ & _ & _ & Hrec).
  by exists hass1, hass2.
Defined.

(** ** The handler record over the life of the instance *)

(** The options listener changes nothing in [hass.data]. *)
Lemma update_listener_frame o entry hass hass' r :
  lifecycle.update_listener o entry hass = Some (hass', r) →
  lifecycle.data_domain hass' = lifecycle.data_domain hass
  ∧ lifecycle.handlers_created (lifecycle.calls hass')
    = lifecycle.handlers_created (lifecycle.calls hass)
  ∧ lifecycle.services_unloaded (lifecycle.calls hass')
    = lifecycle.services_unloaded (lifecycle.calls hass).
Proof.
  destruct hass as [d cs].
  unload_cases; try done.
  unfold lifecycle.handlers_created, lifecycle.services_unloaded.
  rewrite !filter_app, !length_app. simpl. split; [done|]. split; lia.
Qed.

Lemma run_op_keeps_handler op hass hass' r :
  lifecycle.run_op op hass = Some (hass', r) →
  is_Some (lifecycle.recorded hass) →
  lifecycle.recorded hass' = lifecycle.recorded hass
  ∧ lifecycle.handlers_created (lifecycle.calls hass')
    = lifecycle.handlers_created (lifecycle.calls hass)
  ∧ lifecycle.services_unloaded (lifecycle.calls hass')
    = lifecycle.services_unloaded (lifecycle.calls hass).
Proof.
  destruct op as [env entry|o entry|p u entry]; simpl.
  - intros (ih & Hrun & Hdata & Hcalls)%lifecycle_setup_inv Hrec.
    destruct (proj1 (async_setup_entry_handler _ _ _ _ _ Hrun))
      as (Hrec' & Hh & _); [done|].
    unfold lifecycle.recorded. rewrite Hdata, Hcalls.
    rewrite lifecycle_handlers_created_setup,
      lifecycle_services_unloaded_setup.
    split; [done|]. split; [|done].
    simpl in Hh. rewrite Hh. unfold init.handlers_created. simpl. lia.
  - rewrite bind_run.
    destruct (lifecycle.update_listener o entry hass)
      as [[h1 [[]|e]]|] eqn:Hrun; [| |done];
      intros [= <- _] _; unfold lifecycle.recorded;
      by destruct (update_listener_frame _ _ _ _ _ Hrun) as (-> & ? & ?).
  - destruct hass as [[d|] cs]; [|by intros _ [? [=]]].
    intros Hrun [mh Hmh].
    destruct (async_unload_entry_domain _ _ _ _ _ _ _ Hrun)
      as (d' & Hd' & _ & _ & Hmh' & _ & _ & _ & Hh & Hs).
    unfold lifecycle.recorded in *. simpl in *. rewrite Hd'. simpl.
    split; [done|]. split; [done|].
    apply Hs. intros (_ & _ & _ & Hnone). simpl in *. congruence.
Qed.

(** X16. Once a handler is recorded, nothing Home Assistant asks of the
    integration undoes it: over any sequence of setups, option updates and
    unloads, whatever their outcomes, the record stays the same (the cancel
    callback is never dropped), no second handler is built, and
    [async_unload_services] is never called, as the dict is never empty
    again. *)
Theorem handler_outlives_every_request (ops : list lifecycle.Op)
    (hass hass' : lifecycle.HomeAssistant) (rs : list (Result bool)) :
  lifecycle.run_ops ops hass = Some (hass', rs) →
  is_Some (lifecycle.recorded hass) →
  lifecycle.recorded hass' = lifecycle.recorded hass
  ∧ lifecycle.handlers_created (lifecycle.calls hass')
    = lifecycle.handlers_created (lifecycle.calls hass)
  ∧ lifecycle.services_unloaded (lifecycle.calls hass')
    = lifecycle.services_unloaded (lifecycle.calls hass).
Proof.
  revert hass rs. induction ops as [|op ops IH]; intros hass rs.
  - by intros [= <- _].
  - simpl. destruct (lifecycle.run_op op hass) as [[h1 r]|] eqn:Hop; [|done].
    destruct (lifecycle.run_ops ops h1) as [[h2 rs2]|] eqn:Hops; [|done].
    intros [= <- _] Hrec.
    destruct (run_op_keeps_handler _ _ _ _ Hop Hrec) as (Hr1 & Hh1 & Hs1).
    destruct (IH _ _ Hops) as (Hr2 & Hh2 & Hs2); [by rewrite Hr1|].
    split; [congruence|]. split; congruence.
Qed.

(** An instance: set up, unload and set up again the same vehicle, then
    update its options; one handler was built, by the first setup. *)
Lemma handler_outlives_every_request_witness :
  let entry := sample_entry "entry1" "VIN1" in
  ∃ hass1 hass2 rs,
    lifecycle.async_setup_entry setup_succeeds entry fresh_instance
    = Some (hass1, Ok true)
    ∧ lifecycle.run_ops [lifecycle.Unload (Ok true) (Ok ()) entry;
                         lifecycle.Setup setup_succeeds entry;
                         lifecycle.UpdateOptions (Ok ()) entry] hass1
      = Some (hass2, rs)
    ∧ lifecycle.handlers_created (lifecycle.calls hass2)
      = lifecycle.handlers_created (lifecycle.calls hass1)
    ∧ lifecycle.handlers_created (lifecycle.calls hass1) = 1%nat.
Proof.
  intros entry.
  destruct (lifecycle.async_setup_entry setup_succeeds entry fresh_instance)
    as [[hass1 r]|] eqn:Hrun; [|by vm_compute in Hrun].
  destruct (lifecycle.run_ops [lifecycle.Unload (Ok true) (Ok ()) entry;
                               lifecycle.Setup setup_succeeds entry;
                               lifecycle.UpdateOptions (Ok ()) entry] hass1)
    as [[hass2 rs]|] eqn:Hops;
    [|vm_compute in Hrun; injection Hrun as <- _; by vm_compute in Hops].
  assert (r = Ok true ∧ is_Some (lifecycle.recorded hass1)
          ∧ lifecycle.handlers_created (lifecycle.calls hass1) = 1%nat)
    as (-> & Hrec & Hone).
  { vm_compute in Hrun. injection Hrun as <- <-.
    split; [done|]. split; [by eexists|done]. }
  destruct (handler_outlives_every_request _ _ _ _ Hops Hrec) as (_ & Hh & _).
  by exists hass1, hass2, rs.
Defined.

(** ** The options listener *)

(** X17. [update_listener] finds the coordinator a successful setup stored
    for the entry and hands it the options: one call, on that coordinator,
    whose outcome (also an exception) is the listener's, and nothing in
    [hass.data] changes. On an instance without a coordinator for the entry
    it raises KeyError before any call. *)
Theorem update_listener_finds_coordinator (o : Result unit)
    (entry : init.ConfigEntry) :
  (∀ env hass hass1,
     lifecycle.async_setup_entry env entry hass = Some (hass1, Ok true) →
     lifecycle.update_listener o entry hass1
     = Some ({| lifecycle.data_domain := lifecycle.data_domain hass1;
                lifecycle.calls :=
                  lifecycle.calls hass1
                  ++ [lifecycle.async_update_options_call
                        (coordinator_of_entry entry)
                        (init.entry_id entry)] |}, o))
  ∧ (∀ hass,
       lifecycle.data_domain hass
         ≫= (λ d, entry_coordinators d
                  !! (init.entry_id entry +:+ "_coordinator")) = None →
       ∃ key, lifecycle.update_listener o entry hass
              = Some (hass, Raise (KeyError key))).
Proof.
  split.
  - intros env hass hass1 (ih & Hrun & Hdata & _)%lifecycle_setup_inv.
    destruct (setup_true_stored _ _ _ _ Hrun)
      as (d1 & _ & _ & _ & Hd1 & _ & _ & _ & _ & Hkey & _).
    unfold lifecycle.update_listener. rewrite bind_run.
    unfold lifecycle.get_domain at 1. rewrite Hdata, Hd1.
    rewrite bind_run. unfold lifecycle.getitem. rewrite Hkey.
    cbn [mret M_ret]. unfold lifecycle.call. by rewrite Hdata, Hd1.
  - intros [[d|] cs]; simpl; intros Hnone; [|by eexists].
    exists (init.entry_id entry +:+ "_coordinator").
    unfold lifecycle.update_listener. rewrite bind_run. simpl.
    rewrite bind_run. unfold lifecycle.getitem. by rewrite Hnone.
Qed.

(** An instance: the listener after the first vehicle's setup. *)
Lemma update_listener_finds_coordinator_witness :
  let entry := sample_entry "entry1" "VIN1" in
  ∃ hass1 hass2,
    lifecycle.async_setup_entry setup_succeeds entry fresh_instance
    = Some (hass1, Ok true)
    ∧ lifecycle.update_listener (Ok ()) entry hass1 = Some (hass2, Ok ())
    ∧ lifecycle.data_domain hass2 = lifecycle.data_domain hass1.
Proof.
  intros entry.
  destruct (lifecycle.async_setup_entry setup_succeeds entry fresh_instance)
    as [[hass1 r]|] eqn:Hrun; [|by vm_compute in Hrun].
  assert (r = Ok true) as ->
    by (vm_compute in Hrun; by injection Hrun as _ <-).
  eexists hass1, _. split; [done|].
  split; [exact (proj1 (update_listener_finds_coordinator (Ok ()) entry)
                   setup_succeeds fresh_instance hass1 Hrun)|done].
Defined.
